(** * A free-fly camera, a UV sphere and a Phong fragment shader

    Shallow embedding of the demo program [源.cpp]: the [Camera] class with
    its view matrix, the sphere vertex and index loops of [main], the
    animated light, colour and lamp of the render loop, the cursor and wheel
    callbacks, [processInput], and the two lit fragment shaders.

    Numeric conventions.  The program computes with [float]; here a [float]
    is a real number and every operation is exact, so rounding, infinities
    and NaN are outside the model.  The constant [PI] of the program and the
    degree-to-radian factor of [glm::radians] stand for the numbers they
    approximate (π and π/180).  An [int] is an integer of [Z], with the
    32-bit two's-complement wrap-around written out in [int_wrap]. *)

From Stdlib Require Import Reals Lra Lia Psatz ZArith List Bool.
Import ListNotations.

Local Open Scope R_scope.

(** ** glm::vec3 and the glm functions the program calls *)

Record vec3 : Type := mkvec3 { vx : R; vy : R; vz : R }.

Record vec4 : Type := mkvec4 { wx : R; wy : R; wz : R; ww : R }.

Declare Scope vec_scope.
Delimit Scope vec_scope with vec.
Bind Scope vec_scope with vec3.

(** [a + b], [a - b] on vectors. *)
Definition vadd (a b : vec3) : vec3 :=
  mkvec3 (vx a + vx b) (vy a + vy b) (vz a + vz b).

Definition vsub (a b : vec3) : vec3 :=
  mkvec3 (vx a - vx b) (vy a - vy b) (vz a - vz b).

(** [v * s] and [s * v], vector by scalar. *)
Definition vscale (v : vec3) (s : R) : vec3 :=
  mkvec3 (vx v * s) (vy v * s) (vz v * s).

Definition scalev (s : R) (v : vec3) : vec3 :=
  mkvec3 (s * vx v) (s * vy v) (s * vz v).

(** [a * b] on vectors is componentwise (GLSL and glm alike). *)
Definition vmul (a b : vec3) : vec3 :=
  mkvec3 (vx a * vx b) (vy a * vy b) (vz a * vz b).

Definition vneg (a : vec3) : vec3 := mkvec3 (- vx a) (- vy a) (- vz a).

Infix "+v" := vadd (at level 50, left associativity) : vec_scope.
Infix "-v" := vsub (at level 50, left associativity) : vec_scope.
Infix "*s" := vscale (at level 40, left associativity) : vec_scope.
Infix "s*" := scalev (at level 40, left associativity) : vec_scope.
Infix "*v" := vmul (at level 40, left associativity) : vec_scope.

Definition dot (a b : vec3) : R := vx a * vx b + vy a * vy b + vz a * vz b.

(** glm::cross(x, y). *)
Definition cross (x y : vec3) : vec3 :=
  mkvec3 (vy x * vz y - vy y * vz x)
         (vz x * vx y - vz y * vx x)
         (vx x * vy y - vx y * vy x).

(** glm::inversesqrt and glm::normalize: [v * inversesqrt(dot(v, v))]. *)
Definition inversesqrt (x : R) : R := 1 / sqrt x.

Definition normalize (v : vec3) : vec3 := (v *s inversesqrt (dot v v))%vec.

(** glm::length. *)
Definition length3 (v : vec3) : R := sqrt (dot v v).

(** glm::radians. *)
Definition radians (degrees : R) : R := degrees * (PI / 180).

(** ** The camera *)

Inductive Camera_Movement : Type := FORWARD | BACKWARD | LEFT | RIGHT.

Definition Camera_Movement_eqb (a b : Camera_Movement) : bool :=
  match a, b with
  | FORWARD, FORWARD | BACKWARD, BACKWARD | LEFT, LEFT | RIGHT, RIGHT => true
  | _, _ => false
  end.

(** Default camera values. *)
Definition YAW : R := -90.
Definition PITCH : R := 0.
Definition SPEED : R := 2.5.
Definition SENSITIVITY : R := 0.1.
Definition ZOOM : R := 45.

Record Camera : Type := mkCamera {
  Position : vec3;
  Front : vec3;
  Up : vec3;
  Right : vec3;
  WorldUp : vec3;
  Yaw : R;
  Pitch : R;
  MovementSpeed : R;
  MouseSensitivity : R;
  Zoom : R
}.

(** Field assignments. *)
Definition set_Position (c : Camera) (p : vec3) : Camera :=
  mkCamera p (Front c) (Up c) (Right c) (WorldUp c)
           (Yaw c) (Pitch c) (MovementSpeed c) (MouseSensitivity c) (Zoom c).

Definition set_Front (c : Camera) (f : vec3) : Camera :=
  mkCamera (Position c) f (Up c) (Right c) (WorldUp c)
           (Yaw c) (Pitch c) (MovementSpeed c) (MouseSensitivity c) (Zoom c).

Definition set_Up (c : Camera) (u : vec3) : Camera :=
  mkCamera (Position c) (Front c) u (Right c) (WorldUp c)
           (Yaw c) (Pitch c) (MovementSpeed c) (MouseSensitivity c) (Zoom c).

Definition set_Right (c : Camera) (r : vec3) : Camera :=
  mkCamera (Position c) (Front c) (Up c) r (WorldUp c)
           (Yaw c) (Pitch c) (MovementSpeed c) (MouseSensitivity c) (Zoom c).

Definition set_Yaw (c : Camera) (y : R) : Camera :=
  mkCamera (Position c) (Front c) (Up c) (Right c) (WorldUp c)
           y (Pitch c) (MovementSpeed c) (MouseSensitivity c) (Zoom c).

Definition set_Pitch (c : Camera) (p : R) : Camera :=
  mkCamera (Position c) (Front c) (Up c) (Right c) (WorldUp c)
           (Yaw c) p (MovementSpeed c) (MouseSensitivity c) (Zoom c).

Definition set_Zoom (c : Camera) (z : R) : Camera :=
  mkCamera (Position c) (Front c) (Up c) (Right c) (WorldUp c)
           (Yaw c) (Pitch c) (MovementSpeed c) (MouseSensitivity c) z.

(** [Camera::updateCameraVectors]. *)
Definition updateCameraVectors (c : Camera) : Camera :=
  let front :=
    mkvec3 (cos (radians (Yaw c)) * cos (radians (Pitch c)))
           (sin (radians (Pitch c)))
           (sin (radians (Yaw c)) * cos (radians (Pitch c))) in
  let c := set_Front c (normalize front) in
  let c := set_Right c (normalize (cross (Front c) (WorldUp c))) in
  set_Up c (normalize (cross (Right c) (Front c))).

(** The constructor with vectors; [Up] and [Right] are default-constructed
    and then assigned by [updateCameraVectors]. *)
Definition Camera_new (position up : vec3) (yaw pitch : R) : Camera :=
  updateCameraVectors
    (mkCamera position (mkvec3 0 0 (-1)) (mkvec3 0 0 0) (mkvec3 0 0 0) up
              yaw pitch SPEED SENSITIVITY ZOOM).

(** The global [camera] of the program: [Camera camera(glm::vec3(0,0,5))]. *)
Definition camera : Camera :=
  Camera_new (mkvec3 0 0 5) (mkvec3 0 1 0) YAW PITCH.

(** [Camera::ProcessKeyboard]: four independent [if]s. *)
Definition ProcessKeyboard (c : Camera) (direction : Camera_Movement)
                           (deltaTime : R) : Camera :=
  let velocity := MovementSpeed c * deltaTime in
  let c := if Camera_Movement_eqb direction FORWARD
           then set_Position c (Position c +v Front c *s velocity)%vec else c in
  let c := if Camera_Movement_eqb direction BACKWARD
           then set_Position c (Position c -v Front c *s velocity)%vec else c in
  let c := if Camera_Movement_eqb direction LEFT
           then set_Position c (Position c -v Right c *s velocity)%vec else c in
  let c := if Camera_Movement_eqb direction RIGHT
           then set_Position c (Position c +v Right c *s velocity)%vec else c in
  c.

(** [Camera::ProcessMouseMovement]. *)
Definition ProcessMouseMovement (c : Camera) (xoffset yoffset : R)
                                (constrainPitch : bool) : Camera :=
  let xoffset := xoffset * MouseSensitivity c in
  let yoffset := yoffset * MouseSensitivity c in
  let c := set_Yaw c (Yaw c + xoffset) in
  let c := set_Pitch c (Pitch c + yoffset) in
  let c :=
    if constrainPitch then
      let c := if Rlt_dec 89 (Pitch c) then set_Pitch c 89 else c in
      let c := if Rlt_dec (Pitch c) (-89) then set_Pitch c (-89) else c in
      c
    else c in
  updateCameraVectors c.

(** [Camera::ProcessMouseScroll]. *)
Definition ProcessMouseScroll (c : Camera) (yoffset : R) : Camera :=
  let c := set_Zoom c (Zoom c - yoffset) in
  let c := if Rlt_dec (Zoom c) 1 then set_Zoom c 1 else c in
  let c := if Rlt_dec 45 (Zoom c) then set_Zoom c 45 else c in
  c.

(** [Camera::Set]. *)
Definition Set_ (c : Camera) (po : vec3) : Camera :=
  let c := set_Position c (mkvec3 (vx po) (vy po) (vz po)) in
  let c := set_Yaw c (-90) in
  let c := set_Pitch c 0 in
  updateCameraVectors c.

(** A run of mouse-look calls, as [mouse_callback] issues them
    ([constrainPitch] left at its default, [true]), and a run of scroll
    calls, as [scroll_callback] issues them. *)
Definition look_all (c : Camera) (offsets : list (R * R)) : Camera :=
  fold_left (fun c o => ProcessMouseMovement c (fst o) (snd o) true) offsets c.

Definition zoom_all (c : Camera) (yoffsets : list R) : Camera :=
  fold_left ProcessMouseScroll yoffsets c.

(** ** Machine integers and counting loops *)

Definition INT_MAX : Z := 2147483647.

(** Reduction of an integer to the 32-bit two's-complement range. *)
Definition int_wrap (z : Z) : Z :=
  ((z + 2147483648) mod 4294967296 - 2147483648)%Z.

Definition int_add (a b : Z) : Z := int_wrap (a + b).
Definition int_mul (a b : Z) : Z := int_wrap (a * b).

(** [n] rounds of a loop body with the counter starting at [k] and
    incremented after each round. *)
Fixpoint iterate_from {S : Type} (n : nat) (k : Z) (body : Z -> S -> S)
                      (s : S) : S :=
  match n with
  | O => s
  | Datatypes.S n' => iterate_from n' (k + 1)%Z body (body k s)
  end.

(** [for (int k = lo; k < hi; k++) body] and
    [for (int k = lo; k <= hi; k++) body], for [hi] below [INT_MAX]. *)
Definition for_lt {S : Type} (lo hi : Z) (body : Z -> S -> S) (s : S) : S :=
  iterate_from (Z.to_nat (hi - lo)) lo body s.

Definition for_le {S : Type} (lo hi : Z) (body : Z -> S -> S) (s : S) : S :=
  iterate_from (Z.to_nat (hi + 1 - lo)) lo body s.

(** [std::vector::push_back]. *)
Definition push_back {A : Type} (v : list A) (x : A) : list A := v ++ [x].

(** ** The sphere mesh of [main]

    The segment counts are the constants [X_SEGMENTS] and [Y_SEGMENTS] of the
    program (both 70); the loops are stated for any counts. *)

Definition X_SEGMENTS : Z := 70.
Definition Y_SEGMENTS : Z := 70.

(** The vertex loops: [sphereVertices] is a flat vector of floats, three per
    vertex. *)
Definition gen_sphereVertices (X Y : Z) : list R :=
  for_le 0 Y (fun y sphereVertices =>
    for_le 0 X (fun x sphereVertices =>
      let xSegment := IZR x / IZR X in
      let ySegment := IZR y / IZR Y in
      let xPos := cos (xSegment * 2 * PI) * sin (ySegment * PI) in
      let yPos := cos (ySegment * PI) in
      let zPos := sin (xSegment * 2 * PI) * sin (ySegment * PI) in
      let sphereVertices := push_back sphereVertices xPos in
      let sphereVertices := push_back sphereVertices yPos in
      let sphereVertices := push_back sphereVertices zPos in
      sphereVertices) sphereVertices) [].

(** The index loops. *)
Definition gen_sphereIndices (X Y : Z) : list Z :=
  for_lt 0 Y (fun i sphereIndices =>
    for_lt 0 X (fun j sphereIndices =>
      let sphereIndices := push_back sphereIndices
        (int_add (int_mul i (int_add X 1)) j) in
      let sphereIndices := push_back sphereIndices
        (int_add (int_mul (int_add i 1) (int_add X 1)) j) in
      let sphereIndices := push_back sphereIndices
        (int_add (int_add (int_mul (int_add i 1) (int_add X 1)) j) 1) in
      let sphereIndices := push_back sphereIndices
        (int_add (int_mul i (int_add X 1)) j) in
      let sphereIndices := push_back sphereIndices
        (int_add (int_add (int_mul (int_add i 1) (int_add X 1)) j) 1) in
      let sphereIndices := push_back sphereIndices
        (int_add (int_add (int_mul i (int_add X 1)) j) 1) in
      sphereIndices) sphereIndices) [].

Definition sphereVertices : list R := gen_sphereVertices X_SEGMENTS Y_SEGMENTS.
Definition sphereIndices : list Z := gen_sphereIndices X_SEGMENTS Y_SEGMENTS.

(** The element count handed to [glDrawElements]: [X_SEGMENTS * Y_SEGMENTS * 6]. *)
Definition draw_count (X Y : Z) : Z := int_mul (int_mul X Y) 6.

(** A vertex attribute as [glVertexAttribPointer(index, size, GL_FLOAT,
    GL_FALSE, stride, pointer)] registers it, with [stride] and [pointer]
    counted in floats (the program writes them in bytes, as multiples of
    [sizeof(float)]). *)
Record VertexAttrib : Type := mkVertexAttrib {
  attrib_size : nat;
  attrib_stride : nat;
  attrib_pointer : nat
}.

(** The two attributes registered for the sphere's buffer:
    [glVertexAttribPointer(0, 3, GL_FLOAT, GL_FALSE, 6 * sizeof(float), 0)]
    and [glVertexAttribPointer(1, 3, GL_FLOAT, GL_FALSE, 6 * sizeof(float),
    3 * sizeof(float))]. *)
Definition sphere_attrib_0 : VertexAttrib := mkVertexAttrib 3 6 0.
Definition sphere_attrib_1 : VertexAttrib := mkVertexAttrib 3 6 3.

(** The position attribute of the hand-written mesh, nine floats a vertex:
    [glVertexAttribPointer(0, 3, GL_FLOAT, GL_FALSE, 9 * sizeof(float), 0)]. *)
Definition cube_attrib_0 : VertexAttrib := mkVertexAttrib 3 9 0.

(** The hand-written mesh [vertices] of [main]: 36 vertices of nine floats,
    position, normal and colour. *)
Definition vertices : list R :=
  [
   (-0.5); 0.5; (-0.5); 0.0; 0.0; (-1.0); 0.131538; 0.75865; 0.218959;
   0.5; 0.5; (-0.5); 0.0; 0.0; (-1.0); 0.678865; 0.934693; 0.519416;
   0.5; 0.65; (-0.5); 0.0; 0.0; (-1.0); 0.0345721; 0.85297; 0.00769819;
   0.5; 0.65; (-0.5); 0.0; 0.0; (-1.0); 0.0668422; 0.8686773; 0.1930436;
   (-0.5); 1.3; (-0.75); 0.0; 0.0; (-1.0); 0.42; 0.0; 0.4;
   (-0.5); 0.5; (-0.5); 0.0; 0.0; (-1.0); 0.526929; 0.7653919; 0.701191;
   (-0.5); 0.5; 0.5; 0.0; 0.0; 1.0; 0.762198; 0.90474645; 0.328234;
   0.5; 0.5; 0.5; 0.0; 0.0; 1.0; 0.75641; 0.7365339; 0.198255;
   0.5; 1.3; 0.75; 0.0; 0.0; 1.0; 0.42; 0.0; 0.4;
   0.5; 1.3; 0.75; 0.0; 0.0; 1.0; 0.42; 0.0; 0.4;
   (-0.5); 0.65; 0.5; 0.0; 0.0; 1.0; 0.2753356; 0.70726859; 0.1884707;
   (-0.5); 0.5; 0.5; 0.0; 0.0; 1.0; 0.436411; 0.9477732; 0.274907;
   (-0.5); 0.65; 0.5; (-1.0); 0.0; 0.0; 0.166507; 0.897656; 0.0605643;
   (-0.5); 1.3; (-0.75); (-1.0); 0.0; 0.0; 0.42; 0.0; 0.4;
   (-0.5); 0.5; (-0.5); (-1.0); 0.0; 0.0; 0.004523; 0.8319033; 0.493977;
   (-0.5); 0.5; (-0.5); (-1.0); 0.0; 0.0; 0.0907329; 0.90737491; 0.384142;
   (-0.5); 0.5; 0.5; (-1.0); 0.0; 0.0; 0.1913817; 0.8464446; 0.050084;
   (-0.5); 0.65; 0.5; (-1.0); 0.0; 0.0; 0.1770205; 0.7125365; 0.1688455;
   0.5; 1.3; 0.75; 1.0; 0.0; 0.0; 0.42; 0.0; 0.4;
   0.5; 0.65; (-0.5); 1.0; 0.0; 0.0; 0.069543; 0.725412; 0.2888572;
   0.5; 0.5; (-0.5); 1.0; 0.0; 0.0; 0.306322; 0.513274; 0.2845982;
   0.5; 0.5; (-0.5); 1.0; 0.0; 0.0; 0.2841511; 0.9415395; 0.1467917;
   0.5; 0.5; 0.5; 1.0; 0.0; 0.0; 0.49848; 0.748293; 0.3890737;
   0.5; 1.3; 0.75; 1.0; 0.0; 0.0; 0.42; 0.0; 0.4;
   (-0.5); 0.5; (-0.5); 0.0; (-1.0); 0.0; 0.14; 0.98039; 0.4392157;
   0.5; 0.5; (-0.5); 0.0; (-1.0); 0.0; 0.13; 0.744; 0.55;
   0.5; 0.5; 0.5; 0.0; (-1.0); 0.0; 0.184204; 0.7212752; 0.130427;
   0.5; 0.5; 0.5; 0.0; (-1.0); 0.0; 0.274588; 0.7414293; 0.70982;
   (-0.5); 0.5; 0.5; 0.0; (-1.0); 0.0; 0.845576; 0.955409; 0.148152;
   (-0.5); 0.5; (-0.5); 0.0; (-1.0); 0.0; 0.408767; 0.7564899; 0.488515;
   (-0.5); 0.7; (-0.5); 0.0; 1.0; 0.0; 0.0961095; 0.7199757; 0.629269;
   0.5; 0.65; (-0.5); 0.0; 1.0; 0.0; 0.651254; 0.803073; 0.476432;
   0.5; 0.7; 0.5; 0.0; 1.0; 0.0; 0.20325; 0.901673; 0.142021;
   0.5; 0.7; 0.5; 0.0; 1.0; 0.0; 0.410313; 0.885648; 0.162199;
   (-0.5); 0.65; 0.5; 0.0; 1.0; 0.0; 0.365339; 0.9135109; 0.455307;
   (-0.5); 0.7; (-0.5); 0.0; 1.0; 0.0; 0.0817561; 0.462245; 0.632739
  ].

(** The floats a draw reads for attribute [a] of vertex number [k]:
    [attrib_size a] floats from float number
    [attrib_stride a * k + attrib_pointer a] of the bound buffer; [None] when
    they are not all inside the buffer. *)
Definition fetch_attrib (buffer : list R) (a : VertexAttrib) (k : nat)
  : option (list R) :=
  let first := (attrib_stride a * k + attrib_pointer a)%nat in
  if Nat.leb (first + attrib_size a) (length buffer)
  then Some (firstn (attrib_size a) (skipn first buffer))
  else None.

(** Number of vertices held by a flat vector, and the vertex number [k] of
    it: the floats at [3k], [3k+1], [3k+2], when they are all there. *)
Definition vertex_count (vs : list R) : nat := Nat.div (length vs) 3.

Definition vertex_at (vs : list R) (k : nat) : option vec3 :=
  match nth_error vs (3 * k), nth_error vs (3 * k + 1),
        nth_error vs (3 * k + 2) with
  | Some x, Some y, Some z => Some (mkvec3 x y z)
  | _, _, _ => None
  end.

(** The point of the unit sphere for parameters [u], [v] in the words of the
    specification. *)
Definition sphere_point (u v : R) : vec3 :=
  mkvec3 (cos (2 * PI * u) * sin (PI * v))
         (cos (PI * v))
         (sin (2 * PI * u) * sin (PI * v)).

(** ** The animated light of the render loop *)

(** The three assignments to the global [lightPos], in program order. *)
Definition animate_lightPos (lightPos : vec3) (currentFrame : R) : vec3 :=
  let lightPos := mkvec3 (5 * cos currentFrame) (vy lightPos) (vz lightPos) in
  let lightPos := mkvec3 (vx lightPos) (vy lightPos) (5 * sin currentFrame) in
  let lightPos := mkvec3 (vx lightPos) (cos currentFrame * 2) (vz lightPos) in
  lightPos.

(** The initial value of the global. *)
Definition lightPos0 : vec3 := mkvec3 0 0 8.

(** The orbit formula as the specification writes it:
    [R·(cos t, 2cos t, sin t)]. *)
Definition orbit_formula (radius t : R) : vec3 :=
  (radius s* mkvec3 (cos t) (2 * cos t) (sin t))%vec.

(** ** The lit fragment shaders *)

Record FragmentInput : Type := mkFragmentInput {
  Normal : vec3;
  FragPos : vec3;
  lightPos : vec3;
  lightColor : vec3;
  objectColor : vec3
}.

Definition vec4_of (v : vec3) (w : R) : vec4 := mkvec4 (vx v) (vy v) (vz v) w.

(** [f_basic_lighting]: [objectColor] is a uniform. *)
Definition f_basic_lighting (i : FragmentInput) : vec4 :=
  let ambientStrength := 0.15 in
  let ambient := (ambientStrength s* lightColor i)%vec in
  let norm := normalize (Normal i) in
  let lightDir := normalize (lightPos i -v FragPos i)%vec in
  let diff := Rmax (dot norm lightDir) 0 in
  let diffuse := (diff s* lightColor i)%vec in
  let result := ((ambient +v diffuse) *v objectColor i)%vec in
  vec4_of result 1.

(** [f_humor_drill]: [objectColor] is the interpolated vertex colour. *)
Definition f_humor_drill (i : FragmentInput) : vec4 :=
  let ambientStrength := 0.2 in
  let ambient := (ambientStrength s* lightColor i)%vec in
  let norm := normalize (Normal i) in
  let lightDir := normalize (lightPos i -v FragPos i)%vec in
  let diff := Rmax (dot norm lightDir) 0 in
  let diffuse := (diff s* lightColor i)%vec in
  let result := ((ambient +v diffuse) *v objectColor i)%vec in
  vec4_of result 1.

(** ** Predicates of the specification *)

Definition unit_length (v : vec3) : Prop := length3 v = 1.

Definition orthogonal (a b : vec3) : Prop := dot a b = 0.

(** Orthonormal triple. *)
Definition orthonormal (a b c : vec3) : Prop :=
  unit_length a /\ unit_length b /\ unit_length c /\
  orthogonal a b /\ orthogonal a c /\ orthogonal b c.

(** An ordered triple is right-handed when the third vector is the cross
    product of the first two (determinant [+1] for an orthonormal triple),
    left-handed when it is the opposite. *)
Definition right_handed (a b c : vec3) : Prop := cross a b = c.
Definition left_handed (a b c : vec3) : Prop := cross a b = vneg c.

(** The basis of the specification's [basis_update], from yaw [theta] and
    pitch [phi] in degrees and the world-up vector. *)
Definition rad (deg : R) : R := deg * PI / 180.

Definition spec_front (theta phi : R) : vec3 :=
  normalize (mkvec3 (cos (rad theta) * cos (rad phi))
                    (sin (rad phi))
                    (sin (rad theta) * cos (rad phi))).

Definition spec_right (theta phi : R) (worldUp : vec3) : vec3 :=
  normalize (cross (spec_front theta phi) worldUp).

Definition spec_up (theta phi : R) (worldUp : vec3) : vec3 :=
  normalize (cross (spec_right theta phi worldUp) (spec_front theta phi)).

(** Clamping to an interval. *)
Definition clamp (lo hi x : R) : R := Rmax lo (Rmin hi x).

(** The Phong colour of the specification. *)
Definition spec_shade (ambientStrength : R) (i : FragmentInput) : vec3 :=
  let ambient := (ambientStrength s* lightColor i)%vec in
  let diffuse :=
    (Rmax (dot (normalize (Normal i))
               (normalize (lightPos i -v FragPos i)%vec)) 0
     s* lightColor i)%vec in
  ((ambient +v diffuse) *v objectColor i)%vec.

(** The consecutive counter values of a loop. *)
Fixpoint Zseq (k : Z) (n : nat) : list Z :=
  match n with
  | O => []
  | Datatypes.S n' => k :: Zseq (k + 1)%Z n'
  end.

Definition world_up : vec3 := mkvec3 0 1 0.

(** The frame of an OpenGL camera: orthonormal, with [Up = Right × Front];
    the camera looks down its own negative z axis, so [(Right, Up, -Front)]
    is the right-handed triple and [(Front, Right, Up)], in that order, is
    left-handed. *)
Definition view_frame (c : Camera) : Prop :=
  orthonormal (Front c) (Right c) (Up c) /\
  right_handed (Right c) (Front c) (Up c) /\
  right_handed (Right c) (Up c) (vneg (Front c)) /\
  left_handed (Front c) (Right c) (Up c).

(** The un-normalised front of [updateCameraVectors]. *)
Definition front_of (yaw pitch : R) : vec3 :=
  mkvec3 (cos (radians yaw) * cos (radians pitch))
         (sin (radians pitch))
         (sin (radians yaw) * cos (radians pitch)).

(** The three coordinates computed for grid point [(x, y)]. *)
Definition xPos (X Y x y : Z) : R :=
  cos (IZR x / IZR X * 2 * PI) * sin (IZR y / IZR Y * PI).

Definition yPos (X Y x y : Z) : R :=
  cos (IZR y / IZR Y * PI).

Definition zPos (X Y x y : Z) : R :=
  sin (IZR x / IZR X * 2 * PI) * sin (IZR y / IZR Y * PI).

(** The floats pushed by one round of the inner vertex loop, the entries
    pushed by one round of the inner index loop, and the vertex of grid point
    [(x, y)]. *)
Definition vertex_floats (X Y y x : Z) : list R :=
  [xPos X Y x y; yPos X Y x y; zPos X Y x y].

Definition quad_entries (X i j : Z) : list Z :=
  [int_add (int_mul i (int_add X 1)) j;
   int_add (int_mul (int_add i 1) (int_add X 1)) j;
   int_add (int_add (int_mul (int_add i 1) (int_add X 1)) j) 1;
   int_add (int_mul i (int_add X 1)) j;
   int_add (int_add (int_mul (int_add i 1) (int_add X 1)) j) 1;
   int_add (int_add (int_mul i (int_add X 1)) j) 1].

Definition grid_vertex (X Y x y : Z) : vec3 :=
  mkvec3 (xPos X Y x y) (yPos X Y x y) (zPos X Y x y).

(** ** glm::mat4 and the matrix functions the program calls

    A [mat4] is held by columns, as glm holds it, and [m * v] is the
    combination of the columns of [m] by the components of [v]. *)

Record mat4 : Type := mkmat4 { col0 : vec4; col1 : vec4; col2 : vec4; col3 : vec4 }.

Definition v4add (a b : vec4) : vec4 :=
  mkvec4 (wx a + wx b) (wy a + wy b) (wz a + wz b) (ww a + ww b).

Definition v4scale (a : vec4) (s : R) : vec4 :=
  mkvec4 (wx a * s) (wy a * s) (wz a * s) (ww a * s).

(** [glm::mat4(1.0f)]. *)
Definition mat4_identity : mat4 :=
  mkmat4 (mkvec4 1 0 0 0) (mkvec4 0 1 0 0) (mkvec4 0 0 1 0) (mkvec4 0 0 0 1).

(** [m * v]. *)
Definition mat4_mul_vec4 (m : mat4) (v : vec4) : vec4 :=
  v4add (v4add (v4add (v4scale (col0 m) (wx v)) (v4scale (col1 m) (wy v)))
               (v4scale (col2 m) (wz v)))
        (v4scale (col3 m) (ww v)).

(** [glm::lookAt(eye, center, up)], the right-handed one that glm selects
    by default. *)
Definition lookAt (eye center up : vec3) : mat4 :=
  let f := normalize (center -v eye)%vec in
  let s := normalize (cross f up) in
  let u := cross s f in
  mkmat4 (mkvec4 (vx s) (vx u) (- vx f) 0)
         (mkvec4 (vy s) (vy u) (- vy f) 0)
         (mkvec4 (vz s) (vz u) (- vz f) 0)
         (mkvec4 (- dot s eye) (- dot u eye) (dot f eye) 1).

(** [glm::translate(m, v)] and [glm::scale(m, v)]. *)
Definition translate (m : mat4) (v : vec3) : mat4 :=
  mkmat4 (col0 m) (col1 m) (col2 m)
         (v4add (v4add (v4add (v4scale (col0 m) (vx v))
                              (v4scale (col1 m) (vy v)))
                       (v4scale (col2 m) (vz v)))
                (col3 m)).

Definition scale (m : mat4) (v : vec3) : mat4 :=
  mkmat4 (v4scale (col0 m) (vx v)) (v4scale (col1 m) (vy v))
         (v4scale (col2 m) (vz v)) (col3 m).

(** [Camera::GetViewMatrix]. *)
Definition GetViewMatrix (c : Camera) : mat4 :=
  lookAt (Position c) (Position c +v Front c)%vec (Up c).

(** The model matrix of the lamp cube in the render loop:
    [model = mat4(1.0f); model = translate(model, lightPos);
     model = scale(model, vec3(0.2f))]. *)
Definition lamp_model (lightPos : vec3) : mat4 :=
  let model := mat4_identity in
  let model := translate model lightPos in
  let model := scale model (mkvec3 0.2 0.2 0.2) in
  model.

(** ** The globals of the program and its callbacks *)

Inductive Key : Type :=
  KEY_ESCAPE | KEY_W | KEY_S | KEY_A | KEY_D | KEY_K | KEY_L | KEY_P.

Inductive PolygonMode : Type := GL_LINE | GL_FILL.

(** The global variables [camera], [lastX], [lastY], [firstMouse],
    [deltaTime], [lastFrame] and [lightPos], with the two pieces of window
    and GL state that [processInput] writes: the close flag of the window and
    the polygon mode. *)
Record App : Type := mkApp {
  cam : Camera;
  lastX : R;
  lastY : R;
  firstMouse : bool;
  deltaTime : R;
  lastFrame : R;
  light : vec3;
  windowShouldClose : bool;
  polygonMode : PolygonMode
}.

Definition SCR_WIDTH : R := 800.
Definition SCR_HEIGHT : R := 800.

(** The globals as initialised; a fresh GL context fills polygons. *)
Definition app0 : App :=
  mkApp camera (SCR_WIDTH / 2) (SCR_HEIGHT / 2) true 0 0 lightPos0
        false GL_FILL.

Definition set_cam (st : App) (c : Camera) : App :=
  mkApp c (lastX st) (lastY st) (firstMouse st) (deltaTime st) (lastFrame st)
        (light st) (windowShouldClose st) (polygonMode st).

Definition set_last (st : App) (x y : R) : App :=
  mkApp (cam st) x y (firstMouse st) (deltaTime st) (lastFrame st)
        (light st) (windowShouldClose st) (polygonMode st).

Definition set_firstMouse (st : App) (b : bool) : App :=
  mkApp (cam st) (lastX st) (lastY st) b (deltaTime st) (lastFrame st)
        (light st) (windowShouldClose st) (polygonMode st).

Definition set_timing (st : App) (dt lf : R) : App :=
  mkApp (cam st) (lastX st) (lastY st) (firstMouse st) dt lf
        (light st) (windowShouldClose st) (polygonMode st).

Definition set_light (st : App) (l : vec3) : App :=
  mkApp (cam st) (lastX st) (lastY st) (firstMouse st) (deltaTime st)
        (lastFrame st) l (windowShouldClose st) (polygonMode st).

Definition set_windowShouldClose (st : App) (b : bool) : App :=
  mkApp (cam st) (lastX st) (lastY st) (firstMouse st) (deltaTime st)
        (lastFrame st) (light st) b (polygonMode st).

Definition set_polygonMode (st : App) (m : PolygonMode) : App :=
  mkApp (cam st) (lastX st) (lastY st) (firstMouse st) (deltaTime st)
        (lastFrame st) (light st) (windowShouldClose st) m.

(** [mouse_callback]. *)
Definition mouse_callback (st : App) (xpos ypos : R) : App :=
  let st := if firstMouse st
            then set_firstMouse (set_last st xpos ypos) false
            else st in
  let xoffset := xpos - lastX st in
  let yoffset := lastY st - ypos in
  let st := set_last st xpos ypos in
  set_cam st (ProcessMouseMovement (cam st) xoffset yoffset true).

(** [scroll_callback]. *)
Definition scroll_callback (st : App) (xoffset yoffset : R) : App :=
  set_cam st (ProcessMouseScroll (cam st) yoffset).

(** [processInput]; [pressed k] stands for
    [glfwGetKey(window, k) == GLFW_PRESS]. *)
Definition processInput (st : App) (pressed : Key -> bool) : App :=
  let st := if pressed KEY_ESCAPE then set_windowShouldClose st true else st in
  let st := if pressed KEY_W
            then set_cam st (ProcessKeyboard (cam st) FORWARD (deltaTime st))
            else st in
  let st := if pressed KEY_S
            then set_cam st (ProcessKeyboard (cam st) BACKWARD (deltaTime st))
            else st in
  let st := if pressed KEY_A
            then set_cam st (ProcessKeyboard (cam st) LEFT (deltaTime st))
            else st in
  let st := if pressed KEY_D
            then set_cam st (ProcessKeyboard (cam st) RIGHT (deltaTime st))
            else st in
  let st := if pressed KEY_K then set_polygonMode st GL_LINE else st in
  let st := if pressed KEY_L then set_polygonMode st GL_FILL else st in
  let st := if pressed KEY_P
            then set_cam st (Set_ (cam st) (mkvec3 0 0 5))
            else st in
  st.

(** What one round of the render loop does to the globals, for the time
    [currentFrame] read from [glfwGetTime] and the keys held: the frame
    timing, [processInput], the light. *)
Definition frame (st : App) (currentFrame : R) (pressed : Key -> bool) : App :=
  let st := set_timing st (currentFrame - lastFrame st) currentFrame in
  let st := processInput st pressed in
  set_light st (animate_lightPos (light st) currentFrame).

(** Rounds of the loop in sequence, each with its time and its keys. *)
Definition frames (st : App) (rounds : list (R * (Key -> bool))) : App :=
  fold_left (fun st r => frame st (fst r) (snd r)) rounds st.

(** Cursor events in sequence. *)
Definition mouse_events (st : App) (positions : list (R * R)) : App :=
  fold_left (fun st p => mouse_callback st (fst p) (snd p)) positions st.

(** Key sets. *)
Definition no_keys : Key -> bool := fun _ => false.

Definition only (k : Key) : Key -> bool :=
  fun k' => match k, k' with
            | KEY_ESCAPE, KEY_ESCAPE | KEY_W, KEY_W | KEY_S, KEY_S
            | KEY_A, KEY_A | KEY_D, KEY_D | KEY_K, KEY_K | KEY_L, KEY_L
            | KEY_P, KEY_P => true
            | _, _ => false
            end.

(** The animated object colour of the render loop, from the second reading
    [timeValue] of the clock. *)
Definition redValue (timeValue : R) : R := sin (timeValue * 2) / 2 + 0.5.

Definition greenValue (timeValue : R) : R :=
  sin (timeValue + cos (redValue timeValue)) / 2 + 0.5.

Definition blueValue (timeValue : R) : R :=
  sin (timeValue * 4 + cos (2 * greenValue timeValue)) / 2 + 0.5.

(** What happens to the globals while the program runs: cursor and wheel
    events, delivered to the callbacks, and rounds of the render loop. *)
Inductive Event : Type :=
| EvMouse (xpos ypos : R)
| EvScroll (xoffset yoffset : R)
| EvFrame (currentFrame : R) (pressed : Key -> bool).

Definition handle (st : App) (e : Event) : App :=
  match e with
  | EvMouse xpos ypos => mouse_callback st xpos ypos
  | EvScroll xoffset yoffset => scroll_callback st xoffset yoffset
  | EvFrame currentFrame pressed => frame st currentFrame pressed
  end.

Definition run_events (st : App) (events : list Event) : App :=
  fold_left handle events st.

(** A key as a number, 1 when held. *)
Definition b2r (b : bool) : R := if b then 1 else 0.

(** A point through a matrix: [m * vec4(p, 1.0)]. *)
Definition transform_point (m : mat4) (p : vec3) : vec4 :=
  mat4_mul_vec4 m (vec4_of p 1).

(** What the invariant of the running program says of its camera. *)
Definition camera_ok (c : Camera) : Prop :=
  view_frame c /\ -89 <= Pitch c <= 89 /\ 1 <= Zoom c <= 45 /\
  WorldUp c = world_up /\ MovementSpeed c = SPEED /\
  MouseSensitivity c = SENSITIVITY.

Definition vec3_zero : vec3 := mkvec3 0 0 0.

(** A colour with its three components within [0, 1]. *)
Definition colour01 (v : vec3) : Prop :=
  0 <= vx v <= 1 /\ 0 <= vy v <= 1 /\ 0 <= vz v <= 1.

(** The position attribute registered for the lamp, on the buffer of the
    hand-written mesh:
    [glVertexAttribPointer(0, 3, GL_FLOAT, GL_FALSE, 6 * sizeof(float), 0)]. *)
Definition lamp_attrib_0 : VertexAttrib := mkVertexAttrib 3 6 0.

(** Two sample fragments at the origin under a light at (0, 0, 5): one
    facing the light and one facing away. *)
Definition fragment_lit : FragmentInput :=
  mkFragmentInput (mkvec3 0 0 1) (mkvec3 0 0 0) (mkvec3 0 0 5)
                  (mkvec3 1 0.98039 0.88392157) (mkvec3 1 0.5 0).

Definition fragment_unlit : FragmentInput :=
  mkFragmentInput (mkvec3 0 0 (-1)) (mkvec3 0 0 0) (mkvec3 0 0 5)
                  (mkvec3 1 0.98039 0.88392157) (mkvec3 1 0.5 0).

(** * Vector algebra *)

Ltac vec_simpl :=
  unfold normalize, vscale, scalev, vadd, vsub, vmul, vneg, cross, dot in *;
  simpl in *.

Ltac vec_ring := intros; vec_simpl; try (f_equal; ring); try ring.

Lemma vec3_eta (v : vec3) : v = mkvec3 (vx v) (vy v) (vz v).
Proof. destruct v; reflexivity. Qed.

Lemma dot_comm (a b : vec3) : dot a b = dot b a.
Proof. vec_ring. Qed.

Lemma dot_vscale_l (a b : vec3) (s : R) : dot (a *s s)%vec b = s * dot a b.
Proof. vec_ring. Qed.

Lemma dot_vscale_r (a b : vec3) (s : R) : dot a (b *s s)%vec = s * dot a b.
Proof. vec_ring. Qed.

Lemma cross_vscale_l (a b : vec3) (s : R) :
  cross (a *s s)%vec b = (cross a b *s s)%vec.
Proof. vec_ring. Qed.

Lemma cross_anticomm (a b : vec3) : cross a b = vneg (cross b a).
Proof. vec_ring. Qed.

Lemma dot_cross_l (a b : vec3) : dot (cross a b) a = 0.
Proof. vec_ring. Qed.

Lemma dot_cross_r (a b : vec3) : dot (cross a b) b = 0.
Proof. vec_ring. Qed.

(** Lagrange's identity. *)
Lemma dot_cross_cross (a b : vec3) :
  dot (cross a b) (cross a b) = dot a a * dot b b - dot a b * dot a b.
Proof. vec_ring. Qed.

(** [a × (a × b) = a (a·b) − b (a·a)]. *)
Lemma cross_cross_l (a b : vec3) :
  cross a (cross a b) = (a *s dot a b -v b *s dot a a)%vec.
Proof. vec_ring. Qed.

Lemma vscale_1 (v : vec3) : (v *s 1)%vec = v.
Proof. destruct v; vec_simpl; f_equal; ring. Qed.

Lemma inversesqrt_1 : inversesqrt 1 = 1.
Proof. unfold inversesqrt. rewrite sqrt_1. field. Qed.

Lemma inversesqrt_sqr (d : R) :
  0 < d -> inversesqrt d * inversesqrt d * d = 1.
Proof.
  intros Hd. unfold inversesqrt.
  assert (Hs : 0 < sqrt d) by (apply sqrt_lt_R0; exact Hd).
  assert (Hq : sqrt d * sqrt d = d) by (apply sqrt_sqrt; lra).
  rewrite <- Hq at 3. field. lra.
Qed.

(** A vector of squared length 1 is left alone by [normalize]. *)
Lemma normalize_unit (v : vec3) : dot v v = 1 -> normalize v = v.
Proof.
  intros H. unfold normalize. rewrite H, inversesqrt_1. apply vscale_1.
Qed.

(** [normalize] yields squared length 1 on any non-zero vector. *)
Lemma dot_normalize (v : vec3) :
  0 < dot v v -> dot (normalize v) (normalize v) = 1.
Proof.
  intros H. unfold normalize.
  rewrite dot_vscale_l, dot_vscale_r.
  rewrite <- (inversesqrt_sqr (dot v v) H). ring.
Qed.

Lemma unit_length_dot (v : vec3) : dot v v = 1 -> unit_length v.
Proof. intros H. unfold unit_length, length3. rewrite H. apply sqrt_1. Qed.

(** * The camera basis *)

(** The basis built from a unit front [f] and a world-up [w] not parallel to
    it, the way [updateCameraVectors] builds it. *)
Lemma basis_of_unit_front (f w : vec3) :
  dot f f = 1 ->
  0 < dot (cross f w) (cross f w) ->
  let r := normalize (cross f w) in
  let u := normalize (cross r f) in
  orthonormal f r u /\ u = cross r f /\ cross r u = vneg f /\
  cross f r = vneg u.
Proof.
  intros Hf Hw r u.
  assert (Hrr : dot r r = 1) by (apply dot_normalize; exact Hw).
  assert (Hrf : dot r f = 0).
  { unfold r, normalize. rewrite dot_vscale_l, dot_cross_l. ring. }
  assert (Hcc : dot (cross r f) (cross r f) = 1).
  { rewrite dot_cross_cross, Hrr, Hf, Hrf. ring. }
  assert (Hu : u = cross r f) by (apply normalize_unit; exact Hcc).
  assert (Hru : cross r u = vneg f).
  { rewrite Hu, cross_cross_l, Hrf, Hrr.
    unfold vsub, vscale, vneg; simpl. f_equal; ring. }
  repeat split.
  - apply unit_length_dot; exact Hf.
  - apply unit_length_dot; exact Hrr.
  - apply unit_length_dot. rewrite Hu. exact Hcc.
  - unfold orthogonal. rewrite dot_comm. exact Hrf.
  - unfold orthogonal. rewrite Hu, dot_comm. apply dot_cross_r.
  - unfold orthogonal. rewrite Hu, dot_comm. apply dot_cross_l.
  - exact Hu.
  - exact Hru.
  - rewrite Hu. apply cross_anticomm.
Qed.

Lemma front_of_unit (yaw pitch : R) :
  dot (front_of yaw pitch) (front_of yaw pitch) = 1.
Proof.
  unfold front_of, dot; simpl.
  pose proof (sin2_cos2 (radians yaw)) as Hy.
  pose proof (sin2_cos2 (radians pitch)) as Hp.
  unfold Rsqr in Hy, Hp.
  replace (cos (radians yaw) * cos (radians pitch) *
           (cos (radians yaw) * cos (radians pitch)) +
           sin (radians pitch) * sin (radians pitch) +
           sin (radians yaw) * cos (radians pitch) *
           (sin (radians yaw) * cos (radians pitch)))
    with ((sin (radians yaw) * sin (radians yaw) +
           cos (radians yaw) * cos (radians yaw)) *
          (cos (radians pitch) * cos (radians pitch)) +
          sin (radians pitch) * sin (radians pitch)) by ring.
  rewrite Hy. lra.
Qed.

Lemma radians_rad (deg : R) : radians deg = rad deg.
Proof. unfold radians, rad. field. Qed.

(** Within 89 degrees of the horizon the cosine of the pitch is positive. *)
Lemma cos_pitch_pos (pitch : R) :
  -89 <= pitch <= 89 -> 0 < cos (radians pitch).
Proof.
  intros [Hlo Hhi]. pose proof PI_RGT_0 as Hpi.
  apply cos_gt_0; unfold radians; nra.
Qed.

Lemma front_cross_world_up (yaw pitch : R) :
  -89 <= pitch <= 89 ->
  0 < dot (cross (front_of yaw pitch) world_up)
          (cross (front_of yaw pitch) world_up).
Proof.
  intros Hp. apply cos_pitch_pos in Hp.
  unfold front_of, world_up, cross, dot; simpl.
  pose proof (sin2_cos2 (radians yaw)) as Hy. unfold Rsqr in Hy.
  match goal with |- 0 < ?e =>
    replace e with ((sin (radians yaw) * sin (radians yaw) +
                     cos (radians yaw) * cos (radians yaw)) *
                    (cos (radians pitch) * cos (radians pitch))) by ring
  end.
  rewrite Hy. nra.
Qed.

(** The three vectors [updateCameraVectors] leaves in the camera. *)
Lemma updateCameraVectors_Front (c : Camera) :
  Front (updateCameraVectors c) = normalize (front_of (Yaw c) (Pitch c)).
Proof. reflexivity. Qed.

Lemma updateCameraVectors_Right (c : Camera) :
  Right (updateCameraVectors c) =
  normalize (cross (normalize (front_of (Yaw c) (Pitch c))) (WorldUp c)).
Proof. reflexivity. Qed.

Lemma updateCameraVectors_Up (c : Camera) :
  Up (updateCameraVectors c) =
  normalize (cross (Right (updateCameraVectors c))
                   (Front (updateCameraVectors c))).
Proof. reflexivity. Qed.

Lemma updateCameraVectors_view_frame (c : Camera) :
  WorldUp c = world_up -> -89 <= Pitch c <= 89 ->
  view_frame (updateCameraVectors c).
Proof.
  intros Hw Hp. unfold view_frame.
  rewrite updateCameraVectors_Up, updateCameraVectors_Right,
    updateCameraVectors_Front, Hw.
  rewrite (normalize_unit _ (front_of_unit (Yaw c) (Pitch c))).
  destruct (basis_of_unit_front (front_of (Yaw c) (Pitch c)) world_up
              (front_of_unit _ _) (front_cross_world_up _ _ Hp))
    as (Ho & Hu & Hru & Hfr).
  unfold right_handed, left_handed.
  repeat split; try apply Ho; auto.
Qed.

(** The pitch that [ProcessMouseMovement] leaves when it constrains. *)
Lemma ProcessMouseMovement_Pitch (c : Camera) (xoffset yoffset : R) :
  Pitch (ProcessMouseMovement c xoffset yoffset true) =
  clamp (-89) 89 (Pitch c + yoffset * MouseSensitivity c).
Proof.
  unfold ProcessMouseMovement, clamp, Rmax, Rmin; simpl.
  repeat (destruct Rlt_dec; simpl in *);
    repeat (destruct Rle_dec; simpl in *); try reflexivity; lra.
Qed.

Lemma clamp_range (lo hi x : R) : lo <= hi -> lo <= clamp lo hi x <= hi.
Proof.
  intros H. unfold clamp, Rmax, Rmin.
  repeat destruct Rle_dec; lra.
Qed.

Lemma ProcessMouseMovement_WorldUp (c : Camera) (x y : R) (b : bool) :
  WorldUp (ProcessMouseMovement c x y b) = WorldUp c.
Proof.
  unfold ProcessMouseMovement; simpl.
  destruct b; simpl; repeat (destruct Rlt_dec; simpl); reflexivity.
Qed.

(** [ProcessMouseMovement] ends in [updateCameraVectors]: its result is a
    fixed point of the basis update. *)
Lemma ProcessMouseMovement_recomputed (c : Camera) (x y : R) (b : bool) :
  exists c0, ProcessMouseMovement c x y b = updateCameraVectors c0 /\
             WorldUp c0 = WorldUp c /\
             Yaw c0 = Yaw c + x * MouseSensitivity c /\
             Pitch c0 = Pitch (ProcessMouseMovement c x y b).
Proof.
  unfold ProcessMouseMovement.
  eexists; split; [reflexivity|].
  destruct b; simpl; repeat (destruct Rlt_dec; simpl); auto.
Qed.

Lemma ProcessMouseMovement_view_frame (c : Camera) (xoffset yoffset : R) :
  WorldUp c = world_up ->
  view_frame (ProcessMouseMovement c xoffset yoffset true).
Proof.
  intros Hw.
  destruct (ProcessMouseMovement_recomputed c xoffset yoffset true)
    as (c0 & Heq & Hw0 & _ & Hp0).
  rewrite Heq. apply updateCameraVectors_view_frame.
  - rewrite Hw0. exact Hw.
  - rewrite Hp0, ProcessMouseMovement_Pitch. apply clamp_range. lra.
Qed.

Lemma Set_view_frame (c : Camera) (po : vec3) :
  WorldUp c = world_up -> view_frame (Set_ c po).
Proof.
  intros Hw. unfold Set_. apply updateCameraVectors_view_frame; simpl.
  - exact Hw.
  - lra.
Qed.

(** Yaw -90 and pitch 0 look down the negative z axis. *)
Lemma radians_m90 : radians (-90) = - (PI / 2).
Proof. unfold radians. field. Qed.

Lemma radians_0 : radians 0 = 0.
Proof. unfold radians. ring. Qed.

Lemma front_of_default : front_of (-90) 0 = mkvec3 0 0 (-1).
Proof.
  unfold front_of.
  rewrite radians_m90, radians_0, cos_neg, sin_neg, cos_PI2, sin_PI2,
    cos_0, sin_0.
  f_equal; ring.
Qed.

Lemma normalize_front_default :
  normalize (front_of (-90) 0) = mkvec3 0 0 (-1).
Proof.
  rewrite (normalize_unit _ (front_of_unit (-90) 0)).
  apply front_of_default.
Qed.

Lemma normalize_axis_x : normalize (mkvec3 1 0 0) = mkvec3 1 0 0.
Proof. apply normalize_unit. unfold dot; simpl. ring. Qed.

Lemma normalize_axis_y : normalize (mkvec3 0 1 0) = mkvec3 0 1 0.
Proof. apply normalize_unit. unfold dot; simpl. ring. Qed.

(** The basis of the program's camera at start-up. *)
Lemma camera_basis :
  Front camera = mkvec3 0 0 (-1) /\
  Right camera = mkvec3 1 0 0 /\
  Up camera = mkvec3 0 1 0.
Proof.
  assert (HF : Front camera = mkvec3 0 0 (-1)).
  { unfold camera, Camera_new. rewrite updateCameraVectors_Front.
    simpl Yaw; simpl Pitch. unfold YAW, PITCH.
    apply normalize_front_default. }
  assert (HR : Right camera = mkvec3 1 0 0).
  { unfold camera, Camera_new. rewrite updateCameraVectors_Right.
    simpl Yaw; simpl Pitch; simpl WorldUp. unfold YAW, PITCH.
    rewrite normalize_front_default.
    replace (cross (mkvec3 0 0 (-1)) (mkvec3 0 1 0)) with (mkvec3 1 0 0)
      by (unfold cross; simpl; f_equal; ring).
    apply normalize_axis_x. }
  repeat split; auto.
  unfold camera, Camera_new in *. rewrite updateCameraVectors_Up, HF, HR.
  replace (cross (mkvec3 1 0 0) (mkvec3 0 0 (-1))) with (mkvec3 0 1 0)
    by (unfold cross; simpl; f_equal; ring).
  apply normalize_axis_y.
Qed.

(** * The camera claims *)

(** C1, as the code has it.  With the world-up vector [(0, 1, 0)] of the
    program, for every yaw (in particular in (-180, 180]) and every pitch in
    [-89, 89], the Front, Right and Up vectors left by [updateCameraVectors]
    have unit length and are pairwise orthogonal, with [Up = Right × Front]:
    [(Right, Front, Up)] and [(Right, Up, -Front)] are right-handed, and
    [(Front, Right, Up)], in that order, is left-handed.  The same holds
    after a constrained [ProcessMouseMovement] and after [Set], the
    operations that change yaw or pitch, and the basis left by the update
    does not depend on the basis [f], [u], [r] held before it. *)
Theorem camera_view_frame (c : Camera) (xoffset yoffset : R)
                          (po f u r : vec3) :
  WorldUp c = world_up ->
  -180 < Yaw c <= 180 ->
  -89 <= Pitch c <= 89 ->
  view_frame (updateCameraVectors c) /\
  view_frame (ProcessMouseMovement c xoffset yoffset true) /\
  view_frame (Set_ c po) /\
  updateCameraVectors
    (mkCamera (Position c) f u r (WorldUp c) (Yaw c) (Pitch c)
              (MovementSpeed c) (MouseSensitivity c) (Zoom c)) =
  updateCameraVectors c.
Proof.
  intros Hw _ Hp. split; [|split; [|split]].
  - apply updateCameraVectors_view_frame; assumption.
  - apply ProcessMouseMovement_view_frame; assumption.
  - apply Set_view_frame; assumption.
  - reflexivity.
Qed.

Lemma camera_view_frame_witness :
  WorldUp camera = world_up /\
  -180 < Yaw camera <= 180 /\
  -89 <= Pitch camera <= 89 /\
  view_frame (updateCameraVectors camera) /\
  view_frame (ProcessMouseMovement camera 10 2000 true) /\
  view_frame (Set_ camera (mkvec3 0 0 5)).
Proof.
  assert (Hw : WorldUp camera = world_up) by reflexivity.
  assert (Hy : -180 < Yaw camera <= 180) by (simpl; unfold YAW; lra).
  assert (Hp : -89 <= Pitch camera <= 89) by (simpl; unfold PITCH; lra).
  destruct (camera_view_frame camera 10 2000 (mkvec3 0 0 5)
              (mkvec3 0 0 0) (mkvec3 0 0 0) (mkvec3 0 0 0) Hw Hy Hp)
    as (H1 & H2 & H3 & _).
  repeat (split; [assumption|]). assumption.
Defined.

(** The claim C1 as stated fails on handedness: at the yaw -90 and pitch 0
    of the program's start-up camera the basis is Front = (0,0,-1),
    Right = (1,0,0), Up = (0,1,0), and Front × Right = (0,-1,0) is the
    opposite of Up, so the ordered triple (Front, Right, Up) is not
    right-handed. *)
Lemma front_right_up_not_right_handed :
  WorldUp camera = world_up /\
  -180 < Yaw camera <= 180 /\
  -89 <= Pitch camera <= 89 /\
  camera = updateCameraVectors camera /\
  Front camera = mkvec3 0 0 (-1) /\
  Right camera = mkvec3 1 0 0 /\
  Up camera = mkvec3 0 1 0 /\
  cross (Front camera) (Right camera) = mkvec3 0 (-1) 0 /\
  ~ right_handed (Front camera) (Right camera) (Up camera).
Proof.
  destruct camera_basis as (HF & HR & HU).
  assert (HX : cross (Front camera) (Right camera) = mkvec3 0 (-1) 0).
  { rewrite HF, HR. unfold cross; simpl. f_equal; ring. }
  split; [reflexivity|].
  split; [simpl; unfold YAW; lra|].
  split; [simpl; unfold PITCH; lra|].
  split; [reflexivity|].
  repeat (split; [assumption|]).
  unfold right_handed. rewrite HX, HU. intros H.
  apply (f_equal vy) in H. simpl in H. lra.
Qed.

(** C2.  [updateCameraVectors] sets Front to
    normalize([cos(rad θ)·cos(rad φ), sin(rad φ), sin(rad θ)·cos(rad φ)])
    for the yaw θ and pitch φ of the camera, in degrees, then Right to
    normalize(Front × WorldUp), front first, then Up to
    normalize(Right × Front); it changes nothing else, and the order of the
    first cross product matters: the other order gives the opposite vector. *)
Theorem updateCameraVectors_spec (c : Camera) :
  let c' := updateCameraVectors c in
  Front c' = spec_front (Yaw c) (Pitch c) /\
  Right c' = spec_right (Yaw c) (Pitch c) (WorldUp c) /\
  Up c' = spec_up (Yaw c) (Pitch c) (WorldUp c) /\
  Right c' = normalize (cross (Front c') (WorldUp c')) /\
  Up c' = normalize (cross (Right c') (Front c')) /\
  cross (WorldUp c') (Front c') = vneg (cross (Front c') (WorldUp c')) /\
  Position c' = Position c /\ WorldUp c' = WorldUp c /\
  Yaw c' = Yaw c /\ Pitch c' = Pitch c /\
  MovementSpeed c' = MovementSpeed c /\
  MouseSensitivity c' = MouseSensitivity c /\ Zoom c' = Zoom c.
Proof.
  intros c'.
  assert (HF : Front c' = spec_front (Yaw c) (Pitch c)).
  { unfold c'. rewrite updateCameraVectors_Front.
    unfold spec_front, front_of. rewrite !radians_rad. reflexivity. }
  assert (HR : Right c' = spec_right (Yaw c) (Pitch c) (WorldUp c)).
  { unfold spec_right. rewrite <- HF. reflexivity. }
  assert (HU : Up c' = spec_up (Yaw c) (Pitch c) (WorldUp c)).
  { unfold spec_up. rewrite <- HF, <- HR. reflexivity. }
  split; [exact HF|]. split; [exact HR|]. split; [exact HU|].
  split; [reflexivity|]. split; [reflexivity|].
  split; [apply cross_anticomm|].
  repeat split.
Qed.

(** C7.  For every camera and every point [po], [Set] leaves the position
    at [po], the yaw at -90 and the pitch at 0, and recomputes the basis:
    the Front vector is (0, 0, -1) and Right and Up are rebuilt from it. *)
Theorem Set_resets (c : Camera) (po : vec3) :
  let c' := Set_ c po in
  Position c' = po /\ Yaw c' = -90 /\ Pitch c' = 0 /\
  Front c' = mkvec3 0 0 (-1) /\
  Right c' = normalize (cross (Front c') (WorldUp c)) /\
  Up c' = normalize (cross (Right c') (Front c')) /\
  c' = updateCameraVectors
         (mkCamera po (Front c) (Up c) (Right c) (WorldUp c) (-90) 0
                   (MovementSpeed c) (MouseSensitivity c) (Zoom c)).
Proof.
  intros c'. unfold c', Set_.
  split; [simpl; symmetry; apply vec3_eta|].
  split; [reflexivity|]. split; [reflexivity|].
  split; [rewrite updateCameraVectors_Front; simpl Yaw; simpl Pitch;
          apply normalize_front_default|].
  split; [reflexivity|]. split; [reflexivity|].
  unfold set_Pitch, set_Yaw, set_Position; simpl.
  rewrite <- (vec3_eta po). reflexivity.
Qed.

(** One constrained mouse-look call, step by step. *)
Lemma ProcessMouseMovement_constrained (c : Camera) (xoffset yoffset : R) :
  ProcessMouseMovement c xoffset yoffset true =
  updateCameraVectors
    (set_Pitch (set_Yaw c (Yaw c + xoffset * MouseSensitivity c))
               (clamp (-89) 89 (Pitch c + yoffset * MouseSensitivity c))).
Proof.
  rewrite <- (ProcessMouseMovement_Pitch c xoffset yoffset).
  unfold ProcessMouseMovement. cbv zeta.
  repeat destruct Rlt_dec; reflexivity.
Qed.

Lemma look_all_pitch (offsets : list (R * R)) (c : Camera) :
  -89 <= Pitch c <= 89 -> -89 <= Pitch (look_all c offsets) <= 89.
Proof.
  revert c. induction offsets as [|o offsets IH]; intros c Hc.
  - exact Hc.
  - unfold look_all in *. simpl. apply IH.
    rewrite ProcessMouseMovement_Pitch. apply clamp_range. lra.
Qed.

(** C5.  Starting from a pitch in [-89, 89], after any finite sequence of
    [ProcessMouseMovement] calls with [constrainPitch = true] and offsets of
    any size and sign the pitch is in [-89, 89]; each call multiplies the
    offsets by the mouse sensitivity, adds them to yaw and pitch, clamps the
    pitch to [-89, 89] and recomputes the basis. *)
Theorem look_pitch_bounded (c : Camera) (offsets : list (R * R))
                           (xoffset yoffset : R) :
  -89 <= Pitch c <= 89 ->
  -89 <= Pitch (look_all c offsets) <= 89 /\
  ProcessMouseMovement c xoffset yoffset true =
    updateCameraVectors
      (set_Pitch (set_Yaw c (Yaw c + xoffset * MouseSensitivity c))
                 (clamp (-89) 89 (Pitch c + yoffset * MouseSensitivity c))) /\
  Yaw (ProcessMouseMovement c xoffset yoffset true) =
    Yaw c + xoffset * MouseSensitivity c /\
  -89 <= Pitch (ProcessMouseMovement c xoffset yoffset true) <= 89.
Proof.
  intros Hc. split; [apply look_all_pitch; exact Hc|].
  split; [apply ProcessMouseMovement_constrained|].
  split.
  - rewrite ProcessMouseMovement_constrained. reflexivity.
  - rewrite ProcessMouseMovement_Pitch. apply clamp_range. lra.
Qed.

Lemma look_pitch_bounded_witness :
  -89 <= Pitch camera <= 89 /\
  -89 <= Pitch (look_all camera [(3, 100000); (-7, -250000); (0, 12)]) <= 89.
Proof.
  assert (Hp : -89 <= Pitch camera <= 89) by (simpl; unfold PITCH; lra).
  split; [exact Hp|].
  exact (proj1 (look_pitch_bounded camera
                  [(3, 100000); (-7, -250000); (0, 12)] 0 0 Hp)).
Defined.

(** One scroll call leaves the zoom clamped, whatever it was. *)
Lemma ProcessMouseScroll_Zoom (c : Camera) (yoffset : R) :
  Zoom (ProcessMouseScroll c yoffset) = clamp 1 45 (Zoom c - yoffset).
Proof.
  unfold ProcessMouseScroll, clamp, Rmax, Rmin. cbv zeta. simpl Zoom.
  destruct (Rlt_dec (Zoom c - yoffset) 1) as [H1|H1]; simpl Zoom;
    destruct Rlt_dec as [H2|H2]; simpl Zoom;
    repeat (destruct Rle_dec; try lra).
Qed.

Lemma ProcessMouseScroll_range (c : Camera) (yoffset : R) :
  1 <= Zoom (ProcessMouseScroll c yoffset) <= 45.
Proof. rewrite ProcessMouseScroll_Zoom. apply clamp_range. lra. Qed.

Lemma zoom_all_range (yoffsets : list R) (c : Camera) :
  1 <= Zoom c <= 45 -> 1 <= Zoom (zoom_all c yoffsets) <= 45.
Proof.
  revert c. induction yoffsets as [|y yoffsets IH]; intros c Hc.
  - exact Hc.
  - unfold zoom_all in *. simpl. apply IH. apply ProcessMouseScroll_range.
Qed.

(** C6.  After any finite non-empty sequence of [ProcessMouseScroll] calls,
    with any offsets, the zoom is in [1, 45]; from the default zoom of 45
    this holds for the empty sequence as well.  Each call subtracts the
    offset from the zoom and clamps the result to [1, 45], and touches no
    other field. *)
Theorem zoom_bounded (c : Camera) (yoffsets : list R) (yoffset : R) :
  yoffsets <> [] \/ Zoom c = ZOOM ->
  1 <= Zoom (zoom_all c yoffsets) <= 45 /\
  ProcessMouseScroll c yoffset = set_Zoom c (clamp 1 45 (Zoom c - yoffset)).
Proof.
  intros H. split.
  - destruct yoffsets as [|y yoffsets].
    + destruct H as [H|H]; [congruence|].
      simpl. rewrite H. unfold ZOOM. lra.
    + unfold zoom_all. simpl. apply zoom_all_range.
      apply ProcessMouseScroll_range.
  - pose proof (ProcessMouseScroll_Zoom c yoffset) as Hz.
    rewrite <- Hz. unfold ProcessMouseScroll. cbv zeta.
    repeat destruct Rlt_dec; reflexivity.
Qed.

Lemma zoom_bounded_witness :
  Zoom camera = ZOOM /\
  1 <= Zoom (zoom_all camera [3; -1000; 1000; 0.5]) <= 45.
Proof.
  split; [reflexivity|].
  exact (proj1 (zoom_bounded camera [3; -1000; 1000; 0.5] 0
                  (or_intror eq_refl))).
Defined.

Lemma vadd_vsub_cancel (p v : vec3) : (p +v v -v p)%vec = v.
Proof. destruct p, v. vec_simpl. f_equal; ring. Qed.

Lemma vsub_vsub_cancel (p v : vec3) : (p -v v -v p)%vec = vneg v.
Proof. destruct p, v. vec_simpl. f_equal; ring. Qed.

Lemma length3_vneg (v : vec3) : length3 (vneg v) = length3 v.
Proof.
  unfold length3. f_equal. unfold dot, vneg; simpl. ring.
Qed.

Lemma length3_vscale (v : vec3) (s : R) :
  length3 (v *s s)%vec = Rabs s * length3 v.
Proof.
  unfold length3. rewrite dot_vscale_l, dot_vscale_r.
  replace (s * (s * dot v v)) with (Rsqr s * dot v v) by (unfold Rsqr; ring).
  rewrite sqrt_mult_alt by apply Rle_0_sqr.
  rewrite sqrt_Rsqr_abs. reflexivity.
Qed.

(** C8.  [ProcessKeyboard] moves the position by [MovementSpeed * deltaTime]
    along Front (added for FORWARD, subtracted for BACKWARD) or along Right
    (added for RIGHT, subtracted for LEFT): the displacement has length
    |MovementSpeed * deltaTime| times the length of that basis vector.  The
    new position is not clamped or otherwise checked, and no other field
    changes. *)
Theorem ProcessKeyboard_translates (c : Camera) (d : Camera_Movement)
                                   (deltaTime : R) :
  let velocity := MovementSpeed c * deltaTime in
  Position (ProcessKeyboard c FORWARD deltaTime) =
    (Position c +v Front c *s velocity)%vec /\
  Position (ProcessKeyboard c BACKWARD deltaTime) =
    (Position c -v Front c *s velocity)%vec /\
  Position (ProcessKeyboard c LEFT deltaTime) =
    (Position c -v Right c *s velocity)%vec /\
  Position (ProcessKeyboard c RIGHT deltaTime) =
    (Position c +v Right c *s velocity)%vec /\
  ProcessKeyboard c d deltaTime =
    set_Position c (Position (ProcessKeyboard c d deltaTime)) /\
  length3 (Position (ProcessKeyboard c d deltaTime) -v Position c)%vec =
    Rabs velocity * length3 (match d with
                             | FORWARD | BACKWARD => Front c
                             | LEFT | RIGHT => Right c
                             end).
Proof.
  intros velocity. repeat split; try reflexivity.
  - destruct d; destruct c; reflexivity.
  - destruct d; simpl Position;
      first [rewrite vadd_vsub_cancel | rewrite vsub_vsub_cancel];
      rewrite ?length3_vneg; apply length3_vscale.
Qed.

(** * Counting loops as lists *)

Section Loops.
Local Open Scope Z_scope.

Lemma Zseq_length (n : nat) (k : Z) : length (Zseq k n) = n.
Proof. revert k. induction n; intros k; simpl; [|rewrite IHn]; reflexivity. Qed.

Lemma In_Zseq (n : nat) (k z : Z) :
  In z (Zseq k n) <-> k <= z < k + Z.of_nat n.
Proof.
  revert k. induction n as [|n IH]; intros k; simpl.
  - lia.
  - rewrite IH. lia.
Qed.

Lemma nth_error_Zseq (n : nat) (k : Z) (i : nat) :
  (i < n)%nat -> nth_error (Zseq k n) i = Some (k + Z.of_nat i).
Proof.
  revert k i. induction n as [|n IH]; intros k i Hi; [lia|].
  destruct i as [|i]; simpl.
  - f_equal. lia.
  - rewrite IH by lia. f_equal. lia.
Qed.

Lemma iterate_from_ext {S : Type} (f g : Z -> S -> S) :
  (forall k s, f k s = g k s) ->
  forall n k s, iterate_from n k f s = iterate_from n k g s.
Proof.
  intros H n. induction n as [|n IH]; intros k s; simpl.
  - reflexivity.
  - rewrite H. apply IH.
Qed.

(** A loop whose body appends [f k] to a vector appends the [f k] of all
    its rounds, in order. *)
Lemma iterate_from_append {A : Type} (f : Z -> list A) :
  forall n k s,
    iterate_from n k (fun k s => s ++ f k) s = s ++ flat_map f (Zseq k n).
Proof.
  induction n as [|n IH]; intros k s; simpl.
  - rewrite app_nil_r. reflexivity.
  - rewrite IH, app_assoc. reflexivity.
Qed.

Lemma length_flat_map_chunk {A B : Type} (f : A -> list B) (m : nat)
      (l : list A) :
  (forall a, length (f a) = m) ->
  length (flat_map f l) = (m * length l)%nat.
Proof.
  intros Hm. induction l as [|a l IH]; simpl.
  - lia.
  - rewrite length_app, IH, Hm. lia.
Qed.

Lemma nth_error_flat_map_chunk {A B : Type} (f : A -> list B) (m : nat) :
  (forall a, length (f a) = m) ->
  forall (l : list A) (i r : nat) (a : A),
    nth_error l i = Some a -> (r < m)%nat ->
    nth_error (flat_map f l) (m * i + r) = nth_error (f a) r.
Proof.
  intros Hm. induction l as [|b l IH]; intros i r a Hi Hr.
  - destruct i; discriminate.
  - destruct i as [|i]; simpl in *.
    + injection Hi as ->.
      replace (m * 0 + r)%nat with r by lia.
      apply nth_error_app1. rewrite Hm. exact Hr.
    + rewrite nth_error_app2 by (rewrite Hm; lia).
      rewrite Hm.
      replace (m * Datatypes.S i + r - m)%nat with (m * i + r)%nat by lia.
      apply IH; assumption.
Qed.

Lemma int_wrap_small (z : Z) :
  -2147483648 <= z <= INT_MAX -> int_wrap z = z.
Proof.
  unfold INT_MAX, int_wrap. intros H.
  rewrite Z.mod_small by lia. lia.
Qed.

End Loops.

(** * The sphere mesh *)

Section Sphere.
Local Open Scope Z_scope.

(** The vertex loops lay the grid out row by row. *)
Lemma gen_sphereVertices_rows (X Y : Z) :
  gen_sphereVertices X Y =
  flat_map (fun y => flat_map (vertex_floats X Y y)
                              (Zseq 0 (Z.to_nat (X + 1))))
           (Zseq 0 (Z.to_nat (Y + 1))).
Proof.
  unfold gen_sphereVertices, for_le.
  replace (Y + 1 - 0) with (Y + 1) by lia.
  replace (X + 1 - 0) with (X + 1) by lia.
  rewrite (iterate_from_ext _
             (fun y s => s ++ flat_map (vertex_floats X Y y)
                                       (Zseq 0 (Z.to_nat (X + 1))))).
  - rewrite iterate_from_append. reflexivity.
  - intros y s.
    rewrite (iterate_from_ext _ (fun x s => s ++ vertex_floats X Y y x)).
    + apply iterate_from_append.
    + intros x s'. cbv zeta. unfold push_back, vertex_floats.
      rewrite <- !app_assoc. reflexivity.
Qed.

Lemma gen_sphereIndices_rows (X Y : Z) :
  gen_sphereIndices X Y =
  flat_map (fun i => flat_map (quad_entries X i) (Zseq 0 (Z.to_nat X)))
           (Zseq 0 (Z.to_nat Y)).
Proof.
  unfold gen_sphereIndices, for_lt.
  replace (Y - 0) with Y by lia.
  replace (X - 0) with X by lia.
  rewrite (iterate_from_ext _
             (fun i s => s ++ flat_map (quad_entries X i)
                                       (Zseq 0 (Z.to_nat X)))).
  - rewrite iterate_from_append. reflexivity.
  - intros i s.
    rewrite (iterate_from_ext _ (fun j s => s ++ quad_entries X i j)).
    + apply iterate_from_append.
    + intros j s'. unfold push_back, quad_entries.
      rewrite <- !app_assoc. reflexivity.
Qed.

Lemma length_row (X Y y : Z) :
  length (flat_map (vertex_floats X Y y) (Zseq 0 (Z.to_nat (X + 1)))) =
  (3 * Z.to_nat (X + 1))%nat.
Proof.
  rewrite (length_flat_map_chunk _ 3) by reflexivity.
  rewrite Zseq_length. reflexivity.
Qed.

Lemma length_gen_sphereVertices (X Y : Z) :
  length (gen_sphereVertices X Y) =
  (3 * (Z.to_nat (X + 1) * Z.to_nat (Y + 1)))%nat.
Proof.
  rewrite gen_sphereVertices_rows.
  rewrite (length_flat_map_chunk _ (3 * Z.to_nat (X + 1)))
    by (intros y; apply length_row).
  rewrite Zseq_length. lia.
Qed.

Lemma vertex_count_gen (X Y : Z) :
  0 <= X -> 0 <= Y ->
  Z.of_nat (vertex_count (gen_sphereVertices X Y)) = (X + 1) * (Y + 1).
Proof.
  intros HX HY. unfold vertex_count.
  rewrite length_gen_sphereVertices.
  rewrite Nat.mul_comm, Nat.div_mul by lia. lia.
Qed.

Lemma length_gen_sphereIndices (X Y : Z) :
  0 <= X -> 0 <= Y ->
  Z.of_nat (length (gen_sphereIndices X Y)) = 6 * X * Y.
Proof.
  intros HX HY. rewrite gen_sphereIndices_rows.
  rewrite (length_flat_map_chunk _ (6 * Z.to_nat X)).
  - rewrite Zseq_length. lia.
  - intros i. rewrite (length_flat_map_chunk _ 6) by reflexivity.
    rewrite Zseq_length. reflexivity.
Qed.

(** The float number [3 k + r] of the vector, for [k] the row-major number
    of grid point [(x, y)]. *)
Lemma nth_error_gen_sphereVertices (X Y x y : Z) (r : nat) :
  0 <= x <= X -> 0 <= y <= Y -> (r < 3)%nat ->
  nth_error (gen_sphereVertices X Y)
            (3 * Z.to_nat (y * (X + 1) + x) + r) =
  nth_error (vertex_floats X Y y x) r.
Proof.
  intros Hx Hy Hr. rewrite gen_sphereVertices_rows.
  replace (3 * Z.to_nat (y * (X + 1) + x) + r)%nat
    with (3 * Z.to_nat (X + 1) * Z.to_nat y + (3 * Z.to_nat x + r))%nat
    by nia.
  rewrite (nth_error_flat_map_chunk _ (3 * Z.to_nat (X + 1))
             (fun y => length_row X Y y) _ _ _ y).
  - rewrite (nth_error_flat_map_chunk (vertex_floats X Y y) 3
               (fun _ => eq_refl) _ _ _ x).
    + reflexivity.
    + rewrite nth_error_Zseq by lia. f_equal. lia.
    + exact Hr.
  - rewrite nth_error_Zseq by lia. f_equal. lia.
  - lia.
Qed.

Lemma vertex_at_grid (X Y x y : Z) :
  0 <= x <= X -> 0 <= y <= Y ->
  vertex_at (gen_sphereVertices X Y) (Z.to_nat (y * (X + 1) + x)) =
  Some (grid_vertex X Y x y).
Proof.
  intros Hx Hy. unfold vertex_at.
  rewrite <- (Nat.add_0_r (3 * Z.to_nat (y * (X + 1) + x))) at 1.
  rewrite !nth_error_gen_sphereVertices by (assumption || lia).
  reflexivity.
Qed.

(** A vertex number below the vertex count is the number of a grid point. *)
Lemma vertex_number_grid (X Y : Z) (k : nat) :
  0 <= X -> 0 <= Y ->
  (k < vertex_count (gen_sphereVertices X Y))%nat ->
  exists x y, 0 <= x <= X /\ 0 <= y <= Y /\
              k = Z.to_nat (y * (X + 1) + x).
Proof.
  intros HX HY Hk.
  pose proof (vertex_count_gen X Y HX HY) as Hc.
  exists (Z.of_nat k mod (X + 1)), (Z.of_nat k / (X + 1)).
  pose proof (Z.mod_pos_bound (Z.of_nat k) (X + 1) ltac:(lia)) as Hm.
  pose proof (Z.div_mod (Z.of_nat k) (X + 1) ltac:(lia)) as Hd.
  assert (0 <= Z.of_nat k / (X + 1)) by (apply Z.div_pos; lia).
  assert (Z.of_nat k / (X + 1) < Y + 1).
  { apply Z.div_lt_upper_bound; nia. }
  repeat split; try lia.
Qed.

End Sphere.

Lemma grid_vertex_sphere_point (X Y x y : Z) :
  grid_vertex X Y x y = sphere_point (IZR x / IZR X) (IZR y / IZR Y).
Proof.
  unfold grid_vertex, sphere_point, xPos, yPos, zPos. cbv zeta.
  replace (IZR x / IZR X * 2 * PI) with (2 * PI * (IZR x / IZR X)) by ring.
  replace (IZR y / IZR Y * PI) with (PI * (IZR y / IZR Y)) by ring.
  reflexivity.
Qed.

(** Every point of the parametrisation is on the unit sphere. *)
Lemma sphere_point_unit (u v : R) : length3 (sphere_point u v) = 1.
Proof.
  apply unit_length_dot. unfold sphere_point, dot; simpl.
  pose proof (sin2_cos2 (2 * PI * u)) as Hu.
  pose proof (sin2_cos2 (PI * v)) as Hv.
  unfold Rsqr in Hu, Hv.
  match goal with |- ?e = 1 =>
    replace e with ((sin (2 * PI * u) * sin (2 * PI * u) +
                     cos (2 * PI * u) * cos (2 * PI * u)) *
                    (sin (PI * v) * sin (PI * v)) +
                    cos (PI * v) * cos (PI * v)) by ring
  end.
  rewrite Hu. lra.
Qed.

Section SphereClaims.
Local Open Scope Z_scope.

(** Within the [int] range the entries of a quad are computed exactly. *)
Lemma quad_entries_exact (X Y i j : Z) :
  0 <= i < Y -> 0 <= j < X -> (X + 1) * (Y + 1) <= INT_MAX ->
  quad_entries X i j =
  [i * (X + 1) + j; (i + 1) * (X + 1) + j; (i + 1) * (X + 1) + j + 1;
   i * (X + 1) + j; (i + 1) * (X + 1) + j + 1; i * (X + 1) + j + 1].
Proof.
  intros Hi Hj Hmax.
  assert (Hrow : (X + 1) * (Y + 1) = Y * (X + 1) + X + 1) by ring.
  assert (Hlo : 0 <= i * (X + 1)) by nia.
  assert (Hhi : (i + 1) * (X + 1) <= Y * (X + 1)) by nia.
  assert (Hstep : (i + 1) * (X + 1) = i * (X + 1) + X + 1) by ring.
  assert (Hy : 0 <= Y * (X + 1)) by nia.
  assert (Hyx : 0 <= Y * X) by nia.
  assert (Hix : 0 <= i * X) by nia.
  assert (Hw : forall z, 0 <= z <= (X + 1) * (Y + 1) -> int_wrap z = z).
  { intros z Hz. apply int_wrap_small. lia. }
  clear Hmax.
  assert (H1 : int_wrap (X + 1) = X + 1) by (apply Hw; lia).
  assert (H2 : int_wrap (i + 1) = i + 1) by (apply Hw; lia).
  assert (H3 : int_wrap (i * (X + 1)) = i * (X + 1))
    by (apply Hw; lia).
  assert (H4 : int_wrap ((i + 1) * (X + 1)) = (i + 1) * (X + 1))
    by (apply Hw; lia).
  assert (H5 : int_wrap (i * (X + 1) + j) = i * (X + 1) + j)
    by (apply Hw; lia).
  assert (H6 : int_wrap ((i + 1) * (X + 1) + j) = (i + 1) * (X + 1) + j)
    by (apply Hw; lia).
  assert (H7 : int_wrap (i * (X + 1) + j + 1) = i * (X + 1) + j + 1)
    by (apply Hw; lia).
  assert (H8 : int_wrap ((i + 1) * (X + 1) + j + 1) =
               (i + 1) * (X + 1) + j + 1)
    by (apply Hw; lia).
  unfold quad_entries, int_add, int_mul.
  rewrite H1, H2, H3, H4, H5, H6, H7, H8. reflexivity.
Qed.

(** Every entry of the index vector is the row-major number of a grid
    point. *)
Lemma gen_sphereIndices_grid (X Y e : Z) :
  0 <= X -> 0 <= Y -> (X + 1) * (Y + 1) <= INT_MAX ->
  In e (gen_sphereIndices X Y) ->
  exists x y, 0 <= x <= X /\ 0 <= y <= Y /\ e = y * (X + 1) + x.
Proof.
  intros HX HY Hmax He. rewrite gen_sphereIndices_rows in He.
  apply in_flat_map in He as (i & Hi & He).
  apply in_flat_map in He as (j & Hj & He).
  apply In_Zseq in Hi. apply In_Zseq in Hj.
  rewrite (quad_entries_exact X Y i j) in He by lia.
  simpl in He.
  destruct He as [He|[He|[He|[He|[He|[He|[]]]]]]]; subst e.
  - exists j, i. lia.
  - exists j, (i + 1). lia.
  - exists (j + 1), (i + 1). lia.
  - exists j, i. lia.
  - exists (j + 1), (i + 1). lia.
  - exists (j + 1), i. lia.
Qed.

End SphereClaims.

Section MeshTheorems.
Local Open Scope Z_scope.

(** C3.  For [Y] latitude and [X] longitude segments (positive [int]s) the
    generator pushes (X+1)·(Y+1) vertices, three floats each, and 6·X·Y index
    entries, two triangles for each quad of the grid.  The vertices are in
    row-major order: vertex number y·(X+1)+x is the point
    (cos(2π·u)·sin(π·v), cos(π·v), sin(2π·u)·sin(π·v)) for u = x/X and
    v = y/Y, and every vertex has norm 1.  For 2×2 segments that is 9
    vertices and 24 index entries, 8 triangles. *)
Theorem sphere_generator_counts (X Y : Z) :
  0 < X < INT_MAX -> 0 < Y < INT_MAX ->
  let vs := gen_sphereVertices X Y in
  Z.of_nat (vertex_count vs) = (Y + 1) * (X + 1) /\
  length vs = (3 * vertex_count vs)%nat /\
  Z.of_nat (length (gen_sphereIndices X Y)) = 6 * Y * X /\
  (forall x y, 0 <= x <= X -> 0 <= y <= Y ->
     vertex_at vs (Z.to_nat (y * (X + 1) + x)) =
     Some (sphere_point (IZR x / IZR X) (IZR y / IZR Y))) /\
  (forall k, (k < vertex_count vs)%nat ->
     exists v, vertex_at vs k = Some v /\ length3 v = 1%R) /\
  vertex_count (gen_sphereVertices 2 2) = 9%nat /\
  length (gen_sphereIndices 2 2) = (3 * 8)%nat /\
  gen_sphereIndices 2 2 =
    [0; 3; 4; 0; 4; 1;  1; 4; 5; 1; 5; 2;
     3; 6; 7; 3; 7; 4;  4; 7; 8; 4; 8; 5].
Proof.
  intros HX HY vs.
  assert (Hc : Z.of_nat (vertex_count vs) = (X + 1) * (Y + 1))
    by (apply vertex_count_gen; lia).
  split; [lia|].
  split.
  { unfold vs at 1. rewrite length_gen_sphereVertices. lia. }
  split; [rewrite length_gen_sphereIndices; lia|].
  split.
  { intros x y Hx Hy. unfold vs.
    rewrite vertex_at_grid by assumption.
    rewrite grid_vertex_sphere_point. reflexivity. }
  split.
  { intros k Hk.
    destruct (vertex_number_grid X Y k) as (x & y & Hx & Hy & ->);
      [lia | lia | exact Hk |].
    exists (grid_vertex X Y x y). split.
    - apply vertex_at_grid; assumption.
    - rewrite grid_vertex_sphere_point. apply sphere_point_unit. }
  split.
  { apply Nat2Z.inj. rewrite vertex_count_gen by lia. reflexivity. }
  split; reflexivity.
Qed.

Lemma sphere_generator_counts_witness :
  0 < X_SEGMENTS < INT_MAX /\ 0 < Y_SEGMENTS < INT_MAX /\
  Z.of_nat (vertex_count (gen_sphereVertices X_SEGMENTS Y_SEGMENTS)) =
  (Y_SEGMENTS + 1) * (X_SEGMENTS + 1).
Proof.
  assert (HX : 0 < X_SEGMENTS < INT_MAX) by (vm_compute; auto).
  assert (HY : 0 < Y_SEGMENTS < INT_MAX) by (vm_compute; auto).
  exact (conj HX (conj HY
           (proj1 (sphere_generator_counts X_SEGMENTS Y_SEGMENTS HX HY)))).
Defined.

(** The index entries and the draw count, for all segment counts whose
    products fit an [int]: every entry is the row-major number of a vertex
    that the vertex loops pushed, and the count given to the draw call is the
    number of entries. *)
Lemma gen_sphereIndices_in_range (X Y : Z) :
  0 <= X -> 0 <= Y -> (X + 1) * (Y + 1) <= INT_MAX -> 6 * X * Y <= INT_MAX ->
  let vs := gen_sphereVertices X Y in
  Forall (fun e => 0 <= e <= (X + 1) * (Y + 1) - 1)
         (gen_sphereIndices X Y) /\
  Forall (fun e => (Z.to_nat e < vertex_count vs)%nat /\
                   exists v, vertex_at vs (Z.to_nat e) = Some v)
         (gen_sphereIndices X Y) /\
  draw_count X Y = Z.of_nat (length (gen_sphereIndices X Y)).
Proof.
  intros HX HY Hv Hi vs.
  pose proof (vertex_count_gen X Y HX HY) as Hc. fold vs in Hc.
  split; [|split].
  - apply Forall_forall. intros e He.
    destruct (gen_sphereIndices_grid X Y e HX HY Hv He)
      as (x & y & Hx & Hy & ->).
    nia.
  - apply Forall_forall. intros e He.
    destruct (gen_sphereIndices_grid X Y e HX HY Hv He)
      as (x & y & Hx & Hy & ->).
    split; [nia|].
    exists (grid_vertex X Y x y). apply vertex_at_grid; assumption.
  - rewrite length_gen_sphereIndices by assumption.
    unfold draw_count, int_mul.
    assert (Hxy : 0 <= X * Y) by nia.
    rewrite (int_wrap_small (X * Y)) by (unfold INT_MAX in *; lia).
    rewrite int_wrap_small by (unfold INT_MAX in *; lia). ring.
Qed.

Lemma length_sphereVertices : Z.of_nat (length sphereVertices) = 15123.
Proof.
  unfold sphereVertices. rewrite length_gen_sphereVertices.
  unfold X_SEGMENTS, Y_SEGMENTS. lia.
Qed.

(** When a fetch leaves the buffer and when it stays inside. *)
Lemma fetch_attrib_outside (buffer : list R) (a : VertexAttrib) (k : nat) :
  Z.of_nat (length buffer) <
  Z.of_nat (attrib_stride a) * Z.of_nat k + Z.of_nat (attrib_pointer a) +
  Z.of_nat (attrib_size a) ->
  fetch_attrib buffer a k = None.
Proof.
  intros H. unfold fetch_attrib.
  destruct (Nat.leb _ _) eqn:E; [|reflexivity].
  apply Nat.leb_le in E. lia.
Qed.

Lemma fetch_attrib_inside (buffer : list R) (a : VertexAttrib) (k : nat) :
  Z.of_nat (attrib_stride a) * Z.of_nat k + Z.of_nat (attrib_pointer a) +
  Z.of_nat (attrib_size a) <= Z.of_nat (length buffer) ->
  fetch_attrib buffer a k <> None.
Proof.
  intros H. unfold fetch_attrib.
  destruct (Nat.leb _ _) eqn:E; [discriminate|].
  apply Nat.leb_gt in E. lia.
Qed.

(** The hand-written mesh is registered with the stride of its data, nine
    floats a vertex, and its 36 vertices are fetched from inside it. *)
Lemma cube_fetch_inside (k : nat) :
  (k < 36)%nat -> fetch_attrib vertices cube_attrib_0 k <> None.
Proof.
  intros Hk. apply fetch_attrib_inside.
  change (length vertices) with 324%nat.
  unfold cube_attrib_0. simpl attrib_stride; simpl attrib_pointer;
    simpl attrib_size. lia.
Qed.

(** The last quad of the grid pushes the number of the last vertex. *)
Lemma last_vertex_indexed : In 5040 sphereIndices.
Proof.
  unfold sphereIndices. rewrite gen_sphereIndices_rows.
  apply in_flat_map. exists 69. split.
  - apply In_Zseq. vm_compute. split; [discriminate | reflexivity].
  - apply in_flat_map. exists 69. split.
    + apply In_Zseq. vm_compute. split; [discriminate | reflexivity].
    + vm_compute. right; right; left; reflexivity.
Qed.

(** C10 on the program.  The index entries are within [0, 5040], the numbers
    of the 71·71 vertices pushed, and the draw count 70·70·6 is the number of
    entries.  The indexed access itself is not in bounds: the buffer holds
    three floats a vertex, 15123 in all, and both attributes are registered
    with a stride of six floats, so the draw reads floats 30240 to 30245 for
    index 5040, which the last quad emits, and leaves the buffer for every
    index from 2521 on.  A stride of three floats, the layout of the data,
    would keep index 5040 inside. *)
Theorem sphere_draw_reads_past_buffer :
  Forall (fun e => 0 <= e <= (X_SEGMENTS + 1) * (Y_SEGMENTS + 1) - 1)
         sphereIndices /\
  draw_count X_SEGMENTS Y_SEGMENTS = Z.of_nat (length sphereIndices) /\
  Z.of_nat (vertex_count sphereVertices) = 5041 /\
  Z.of_nat (length sphereVertices) = 15123 /\
  In 5040 sphereIndices /\
  fetch_attrib sphereVertices sphere_attrib_0 (Z.to_nat 5040) = None /\
  fetch_attrib sphereVertices sphere_attrib_1 (Z.to_nat 5040) = None /\
  fetch_attrib sphereVertices sphere_attrib_0 (Z.to_nat 2521) = None /\
  fetch_attrib sphereVertices sphere_attrib_1 (Z.to_nat 2520) = None /\
  fetch_attrib sphereVertices (mkVertexAttrib 3 3 0) (Z.to_nat 5040) <> None.
Proof.
  assert (HX : 0 <= X_SEGMENTS) by (vm_compute; discriminate).
  assert (HY : 0 <= Y_SEGMENTS) by (vm_compute; discriminate).
  assert (Hv : (X_SEGMENTS + 1) * (Y_SEGMENTS + 1) <= INT_MAX)
    by (vm_compute; discriminate).
  assert (Hi : 6 * X_SEGMENTS * Y_SEGMENTS <= INT_MAX)
    by (vm_compute; discriminate).
  destruct (gen_sphereIndices_in_range X_SEGMENTS Y_SEGMENTS HX HY Hv Hi)
    as (H1 & _ & H2).
  pose proof length_sphereVertices as Hlen.
  split; [exact H1|]. split; [exact H2|].
  split; [exact (vertex_count_gen X_SEGMENTS Y_SEGMENTS HX HY)|].
  split; [exact Hlen|].
  split; [exact last_vertex_indexed|].
  split; [apply fetch_attrib_outside; rewrite Hlen;
          unfold sphere_attrib_0; simpl attrib_stride;
          simpl attrib_pointer; simpl attrib_size; lia|].
  split; [apply fetch_attrib_outside; rewrite Hlen;
          unfold sphere_attrib_1; simpl attrib_stride;
          simpl attrib_pointer; simpl attrib_size; lia|].
  split; [apply fetch_attrib_outside; rewrite Hlen;
          unfold sphere_attrib_0; simpl attrib_stride;
          simpl attrib_pointer; simpl attrib_size; lia|].
  split; [apply fetch_attrib_outside; rewrite Hlen;
          unfold sphere_attrib_1; simpl attrib_stride;
          simpl attrib_pointer; simpl attrib_size; lia|].
  apply fetch_attrib_inside; rewrite Hlen.
  simpl attrib_stride; simpl attrib_pointer; simpl attrib_size; lia.
Qed.

End MeshTheorems.

(** * The light and the shaders *)

(** C4, as the code has it.  In every frame, whatever the light position
    was, the new one is (R·cos t, 2·cos t, R·sin t) for R = 5 and t the
    elapsed time: the radius scales the x and z components only, and the y
    component has amplitude 2.  At t = 0 it is (5, 2, 0) and at t = π/2 it is
    (0, 0, 5). *)
Theorem lightPos_orbit (lightPos : vec3) (t : R) :
  animate_lightPos lightPos t = mkvec3 (5 * cos t) (2 * cos t) (5 * sin t) /\
  vx (animate_lightPos lightPos t) = vx (orbit_formula 5 t) /\
  vy (animate_lightPos lightPos t) = vy (orbit_formula 1 t) /\
  vz (animate_lightPos lightPos t) = vz (orbit_formula 5 t) /\
  animate_lightPos lightPos 0 = mkvec3 5 2 0 /\
  animate_lightPos lightPos (PI / 2) = mkvec3 0 0 5.
Proof.
  unfold animate_lightPos, orbit_formula, scalev; simpl.
  split; [f_equal; ring|].
  split; [reflexivity|]. split; [ring|]. split; [reflexivity|].
  split.
  - rewrite cos_0, sin_0. f_equal; ring.
  - rewrite cos_PI2, sin_PI2. f_equal; ring.
Qed.

(** The formula of C4 as stated, R·(cos t, 2cos t, sin t) with R = 5, is not
    what the program computes: at t = 0 the formula gives (5, 10, 0) and the
    program (5, 2, 0). *)
Lemma lightPos_not_orbit_formula :
  animate_lightPos lightPos0 0 = mkvec3 5 2 0 /\
  orbit_formula 5 0 = mkvec3 5 10 0 /\
  animate_lightPos lightPos0 0 <> orbit_formula 5 0.
Proof.
  assert (H1 : animate_lightPos lightPos0 0 = mkvec3 5 2 0).
  { unfold animate_lightPos, lightPos0; simpl.
    rewrite cos_0, sin_0. f_equal; ring. }
  assert (H2 : orbit_formula 5 0 = mkvec3 5 10 0).
  { unfold orbit_formula, scalev; simpl.
    rewrite cos_0, sin_0. f_equal; ring. }
  split; [exact H1|]. split; [exact H2|].
  rewrite H1, H2. intros H. apply (f_equal vy) in H. simpl in H. lra.
Qed.

(** C9.  For every fragment input, both lit shaders output the colour
    (ambient + diffuse) × objectColor with alpha 1, where
    ambient = ambientStrength × lightColor,
    diffuse = max(dot(normalize(Normal), normalize(lightPos − FragPos)), 0)
    × lightColor, and ambientStrength is 0.15 in [f_basic_lighting] and 0.2 in
    [f_humor_drill].  The output is a function of the five inputs alone; its
    red component is written out as an instance. *)
Theorem fragment_shading (i : FragmentInput) :
  let diff := Rmax (dot (normalize (Normal i))
                        (normalize (lightPos i -v FragPos i)%vec)) 0 in
  f_basic_lighting i = vec4_of (spec_shade 0.15 i) 1 /\
  f_humor_drill i = vec4_of (spec_shade 0.2 i) 1 /\
  ww (f_basic_lighting i) = 1 /\ ww (f_humor_drill i) = 1 /\
  wx (f_basic_lighting i) =
    (0.15 * vx (lightColor i) + diff * vx (lightColor i)) *
    vx (objectColor i) /\
  wx (f_humor_drill i) =
    (0.2 * vx (lightColor i) + diff * vx (lightColor i)) *
    vx (objectColor i) /\
  0 <= diff.
Proof.
  intros diff. repeat split; try reflexivity.
  unfold diff. apply Rmax_r.
Qed.

(** * The program on concrete inputs *)

Example int_wrap_overflow : int_wrap (INT_MAX + 1) = (-2147483648)%Z.
Proof. reflexivity. Qed.

Example gen_sphereIndices_1_1 :
  gen_sphereIndices 1 1 = [0; 2; 3; 0; 3; 1]%Z.
Proof. reflexivity. Qed.

Example length_gen_sphereVertices_1_1 :
  length (gen_sphereVertices 1 1) = 12%nat.
Proof. reflexivity. Qed.

Example scroll_in : Zoom (ProcessMouseScroll camera 3) = 42.
Proof. rewrite ProcessMouseScroll_Zoom. simpl Zoom.
  unfold ZOOM, clamp, Rmax, Rmin. repeat destruct Rle_dec; lra.
Qed.

Example scroll_far_in : Zoom (ProcessMouseScroll camera 100) = 1.
Proof. rewrite ProcessMouseScroll_Zoom. simpl Zoom.
  unfold ZOOM, clamp, Rmax, Rmin. repeat destruct Rle_dec; lra.
Qed.

Example scroll_out : Zoom (ProcessMouseScroll camera (-10)) = 45.
Proof. rewrite ProcessMouseScroll_Zoom. simpl Zoom.
  unfold ZOOM, clamp, Rmax, Rmin. repeat destruct Rle_dec; lra.
Qed.

Example look_up_far : Pitch (ProcessMouseMovement camera 0 1000 true) = 89.
Proof. rewrite ProcessMouseMovement_Pitch. simpl.
  unfold PITCH, SENSITIVITY, clamp, Rmax, Rmin. repeat destruct Rle_dec; lra.
Qed.

Example look_unconstrained :
  Pitch (ProcessMouseMovement camera 0 1000 false) = 100.
Proof. simpl. unfold PITCH, SENSITIVITY. lra. Qed.

Example step_forward :
  Position (ProcessKeyboard camera FORWARD 1) = mkvec3 0 0 2.5.
Proof.
  destruct camera_basis as (HF & _).
  change (Position (ProcessKeyboard camera FORWARD 1))
    with (mkvec3 0 0 5 +v Front camera *s (SPEED * 1))%vec.
  rewrite HF. unfold SPEED, vadd, vscale; simpl. f_equal; lra.
Qed.

(** * The view matrix *)

Lemma dot_self_nonneg (v : vec3) : 0 <= dot v v.
Proof. unfold dot. nra. Qed.

Lemma unit_length_inv (v : vec3) : unit_length v -> dot v v = 1.
Proof.
  unfold unit_length, length3. intros H.
  rewrite <- (sqrt_sqrt (dot v v) (dot_self_nonneg v)), H. ring.
Qed.

(** In a view frame the front crossed with the up vector is the right
    vector. *)
Lemma view_frame_cross_front_up (c : Camera) :
  view_frame c -> cross (Front c) (Up c) = Right c.
Proof.
  intros ((HF & HR & HU & Hfr & Hfu & Hru) & Hrf & _ & _).
  unfold right_handed in Hrf. rewrite <- Hrf.
  rewrite (cross_anticomm (Right c) (Front c)).
  apply unit_length_inv in HF. unfold orthogonal in Hfr.
  replace (cross (Front c) (vneg (cross (Front c) (Right c))))
    with (vneg (cross (Front c) (cross (Front c) (Right c))))
    by (unfold cross, vneg; simpl; f_equal; ring).
  rewrite cross_cross_l, Hfr, HF.
  unfold vneg, vsub, vscale; simpl.
  destruct (Right c); simpl. f_equal; ring.
Qed.

(** The three vectors [glm::lookAt] builds from a camera in a view frame are
    the camera's own. *)
Lemma GetViewMatrix_rows (c : Camera) :
  view_frame c ->
  GetViewMatrix c =
  mkmat4 (mkvec4 (vx (Right c)) (vx (Up c)) (- vx (Front c)) 0)
         (mkvec4 (vy (Right c)) (vy (Up c)) (- vy (Front c)) 0)
         (mkvec4 (vz (Right c)) (vz (Up c)) (- vz (Front c)) 0)
         (mkvec4 (- dot (Right c) (Position c)) (- dot (Up c) (Position c))
                 (dot (Front c) (Position c)) 1).
Proof.
  intros Hvf.
  pose proof (view_frame_cross_front_up c Hvf) as Hfu.
  destruct Hvf as ((HF & HR & HU & _) & Hrf & _ & _).
  apply unit_length_inv in HF. apply unit_length_inv in HR.
  unfold GetViewMatrix, lookAt. cbv zeta.
  rewrite vadd_vsub_cancel, (normalize_unit _ HF), Hfu,
    (normalize_unit _ HR).
  unfold right_handed in Hrf. rewrite Hrf. reflexivity.
Qed.

(** X1.  For a camera in a view frame, the view matrix takes a world point
    [p] to its coordinates along Right, Up and the opposite of Front,
    measured from the camera position: the position goes to the origin, the
    point one unit ahead to (0, 0, -1), the points one unit to the right and
    one unit up to (1, 0, 0) and (0, 1, 0). *)
Theorem GetViewMatrix_coordinates (c : Camera) (p : vec3) :
  view_frame c ->
  transform_point (GetViewMatrix c) p =
    mkvec4 (dot (Right c) (p -v Position c)%vec)
           (dot (Up c) (p -v Position c)%vec)
           (- dot (Front c) (p -v Position c)%vec) 1 /\
  transform_point (GetViewMatrix c) (Position c) = mkvec4 0 0 0 1 /\
  transform_point (GetViewMatrix c) (Position c +v Front c)%vec =
    mkvec4 0 0 (-1) 1 /\
  transform_point (GetViewMatrix c) (Position c +v Right c)%vec =
    mkvec4 1 0 0 1 /\
  transform_point (GetViewMatrix c) (Position c +v Up c)%vec =
    mkvec4 0 1 0 1.
Proof.
  intros Hvf.
  assert (Hgen : forall q, transform_point (GetViewMatrix c) q =
    mkvec4 (dot (Right c) (q -v Position c)%vec)
           (dot (Up c) (q -v Position c)%vec)
           (- dot (Front c) (q -v Position c)%vec) 1).
  { intros q. rewrite (GetViewMatrix_rows c Hvf).
    unfold transform_point, mat4_mul_vec4, v4add, v4scale, vec4_of, dot, vsub;
      simpl. f_equal; ring. }
  destruct Hvf as ((HF & HR & HU & Hfr & Hfu & Hru) & _).
  apply unit_length_inv in HF. apply unit_length_inv in HR.
  apply unit_length_inv in HU.
  unfold orthogonal in Hfr, Hfu, Hru.
  split; [apply Hgen|].
  split.
  { rewrite Hgen.
    replace (Position c -v Position c)%vec with vec3_zero
      by (unfold vsub, vec3_zero; f_equal; ring).
    unfold dot, vec3_zero; simpl. f_equal; ring. }
  split.
  { rewrite Hgen, vadd_vsub_cancel, HF.
    rewrite (dot_comm (Right c)), (dot_comm (Up c)), Hfr, Hfu.
    reflexivity. }
  split.
  { rewrite Hgen, vadd_vsub_cancel, HR.
    rewrite (dot_comm (Up c)), Hru, Hfr. f_equal; ring. }
  rewrite Hgen, vadd_vsub_cancel, HU, Hru, Hfu. f_equal; ring.
Qed.

Lemma camera_is_view_frame : view_frame camera.
Proof.
  unfold camera, Camera_new. apply updateCameraVectors_view_frame.
  - reflexivity.
  - simpl. unfold PITCH. lra.
Qed.

Lemma GetViewMatrix_coordinates_witness :
  view_frame camera /\
  transform_point (GetViewMatrix camera) (Position camera) = mkvec4 0 0 0 1.
Proof.
  split; [exact camera_is_view_frame|].
  exact (proj1 (proj2 (GetViewMatrix_coordinates camera (mkvec3 1 2 3)
                         camera_is_view_frame))).
Defined.

(** The basis at yaw -90 and pitch 0 under the world-up (0, 1, 0). *)
Lemma default_basis (c : Camera) :
  WorldUp c = world_up -> Yaw c = -90 -> Pitch c = 0 ->
  Front (updateCameraVectors c) = mkvec3 0 0 (-1) /\
  Right (updateCameraVectors c) = mkvec3 1 0 0 /\
  Up (updateCameraVectors c) = mkvec3 0 1 0.
Proof.
  intros Hw Hy Hp.
  assert (HF : Front (updateCameraVectors c) = mkvec3 0 0 (-1)).
  { rewrite updateCameraVectors_Front, Hy, Hp.
    apply normalize_front_default. }
  assert (HR : Right (updateCameraVectors c) = mkvec3 1 0 0).
  { rewrite updateCameraVectors_Right, Hy, Hp, Hw,
      normalize_front_default.
    replace (cross (mkvec3 0 0 (-1)) world_up) with (mkvec3 1 0 0)
      by (unfold cross, world_up; simpl; f_equal; ring).
    apply normalize_axis_x. }
  repeat split; auto.
  rewrite updateCameraVectors_Up, HF, HR.
  replace (cross (mkvec3 1 0 0) (mkvec3 0 0 (-1))) with (mkvec3 0 1 0)
    by (unfold cross; simpl; f_equal; ring).
  apply normalize_axis_y.
Qed.

(** X2.  After [Set], under the world-up (0, 1, 0), the view matrix is the
    translation that brings the new position to the origin: the camera axes
    are the world axes again, whatever the orientation was before. *)
Theorem GetViewMatrix_after_Set (c : Camera) (po p : vec3) :
  WorldUp c = world_up ->
  transform_point (GetViewMatrix (Set_ c po)) p =
  mkvec4 (vx p - vx po) (vy p - vy po) (vz p - vz po) 1.
Proof.
  intros Hw.
  pose proof (Set_view_frame c po Hw) as Hvf.
  rewrite (GetViewMatrix_rows _ Hvf).
  destruct (default_basis
              (set_Pitch (set_Yaw (set_Position c
                 (mkvec3 (vx po) (vy po) (vz po))) (-90)) 0)
              Hw eq_refl eq_refl) as (HF & HR & HU).
  change (updateCameraVectors _) with (Set_ c po) in HF, HR, HU.
  rewrite HF, HR, HU.
  replace (Position (Set_ c po)) with (mkvec3 (vx po) (vy po) (vz po))
    by reflexivity.
  unfold transform_point, mat4_mul_vec4, v4add, v4scale, vec4_of, dot;
    simpl. f_equal; ring.
Qed.

Lemma GetViewMatrix_after_Set_witness :
  WorldUp camera = world_up /\
  transform_point
    (GetViewMatrix (Set_ (ProcessMouseMovement camera 250 (-40) true)
                         (mkvec3 0 0 5)))
    (mkvec3 1 2 3) =
  mkvec4 (1 - 0) (2 - 0) (3 - 5) 1.
Proof.
  split; [reflexivity|].
  apply (GetViewMatrix_after_Set
           (ProcessMouseMovement camera 250 (-40) true)
           (mkvec3 0 0 5) (mkvec3 1 2 3)).
  rewrite ProcessMouseMovement_WorldUp. reflexivity.
Defined.

(** * The cursor callback *)

Lemma ProcessMouseMovement_Yaw (c : Camera) (x y : R) (b : bool) :
  Yaw (ProcessMouseMovement c x y b) = Yaw c + x * MouseSensitivity c.
Proof.
  unfold ProcessMouseMovement; simpl.
  destruct b; simpl; repeat (destruct Rlt_dec; simpl); reflexivity.
Qed.

Lemma ProcessMouseMovement_fixed (c : Camera) (x y : R) (b : bool) :
  Position (ProcessMouseMovement c x y b) = Position c /\
  MovementSpeed (ProcessMouseMovement c x y b) = MovementSpeed c /\
  MouseSensitivity (ProcessMouseMovement c x y b) = MouseSensitivity c /\
  Zoom (ProcessMouseMovement c x y b) = Zoom c.
Proof.
  unfold ProcessMouseMovement; simpl.
  destruct b; simpl; repeat (destruct Rlt_dec; simpl); auto.
Qed.

(** What one cursor event does: the offsets are measured from the last
    reported position, or are zero on the first event. *)
Lemma mouse_callback_cam (st : App) (xpos ypos : R) :
  cam (mouse_callback st xpos ypos) =
  ProcessMouseMovement (cam st)
    (xpos - (if firstMouse st then xpos else lastX st))
    ((if firstMouse st then ypos else lastY st) - ypos) true.
Proof. unfold mouse_callback. destruct (firstMouse st); reflexivity. Qed.

Lemma mouse_callback_last (st : App) (xpos ypos : R) :
  lastX (mouse_callback st xpos ypos) = xpos /\
  lastY (mouse_callback st xpos ypos) = ypos /\
  firstMouse (mouse_callback st xpos ypos) = false.
Proof.
  unfold mouse_callback. destruct (firstMouse st) eqn:E; simpl; auto.
Qed.

Lemma last_cons {A : Type} (l : list A) (a d : A) :
  last (a :: l) d = last l a.
Proof.
  revert a d. induction l as [|b l IH]; intros a d.
  - reflexivity.
  - change (last (a :: b :: l) d) with (last (b :: l) d).
    rewrite !IH. reflexivity.
Qed.

Lemma mouse_events_yaw (rest : list (R * R)) (st : App) :
  firstMouse st = false ->
  let st' := mouse_events st rest in
  Yaw (cam st') =
    Yaw (cam st) +
    (fst (last rest (lastX st, lastY st)) - lastX st) *
    MouseSensitivity (cam st) /\
  MouseSensitivity (cam st') = MouseSensitivity (cam st) /\
  lastX st' = fst (last rest (lastX st, lastY st)) /\
  lastY st' = snd (last rest (lastX st, lastY st)) /\
  firstMouse st' = firstMouse st.
Proof.
  revert st. induction rest as [|p rest IH]; intros st Hf; cbv zeta.
  - simpl. repeat split; try reflexivity. ring.
  - unfold mouse_events in *. simpl fold_left.
    destruct (mouse_callback_last st (fst p) (snd p)) as (Hx & Hy & Hfm).
    specialize (IH (mouse_callback st (fst p) (snd p)) Hfm).
    cbv zeta in IH. destruct IH as (IY & IS & IX & ILY & IF).
    rewrite last_cons.
    rewrite Hx, Hy in IY, IX, ILY.
    rewrite mouse_callback_cam, Hf in IY, IS.
    rewrite ProcessMouseMovement_Yaw in IY.
    destruct (ProcessMouseMovement_fixed (cam st) (fst p - lastX st)
                (lastY st - snd p) true) as (_ & _ & Hs & _).
    rewrite Hs in IY, IS.
    rewrite <- surjective_pairing in IX, ILY, IY.
    repeat split.
    + rewrite IY. ring.
    + exact IS.
    + exact IX.
    + exact ILY.
    + rewrite IF, Hfm, Hf. reflexivity.
Qed.

(** X3.  Over a run of cursor events the yaw telescopes: it ends at the
    starting yaw plus the sensitivity times the distance, in x, from where
    the cursor was first taken into account to where it was last reported,
    whatever path it took in between; the yaw is never wrapped.  On the very
    first event of the program the cursor is taken into account where that
    event reports it.  The last position is remembered for the next event. *)
Theorem mouse_yaw_telescopes (st : App) (p : R * R) (rest : list (R * R)) :
  let st' := mouse_events st (p :: rest) in
  Yaw (cam st') =
    Yaw (cam st) +
    (fst (last rest p) - (if firstMouse st then fst p else lastX st)) *
    MouseSensitivity (cam st) /\
  lastX st' = fst (last rest p) /\
  lastY st' = snd (last rest p) /\
  firstMouse st' = false.
Proof.
  cbv zeta. unfold mouse_events. simpl fold_left.
  destruct (mouse_callback_last st (fst p) (snd p)) as (Hx & Hy & Hfm).
  destruct (mouse_events_yaw rest (mouse_callback st (fst p) (snd p)) Hfm)
    as (IY & IS & IX & ILY & IF).
  unfold mouse_events in *.
  rewrite Hx, Hy, <- surjective_pairing in IY, IX, ILY.
  rewrite mouse_callback_cam, ProcessMouseMovement_Yaw in IY.
  destruct (ProcessMouseMovement_fixed (cam st)
              (fst p - (if firstMouse st then fst p else lastX st))
              ((if firstMouse st then snd p else lastY st) - snd p) true)
    as (_ & _ & Hs & _).
  rewrite Hs in IY.
  repeat split.
  - rewrite IY. ring.
  - exact IX.
  - exact ILY.
  - rewrite IF. exact Hfm.
Qed.

Lemma clamp_id (lo hi x : R) : lo <= x <= hi -> clamp lo hi x = x.
Proof.
  intros H. unfold clamp, Rmax, Rmin. repeat destruct Rle_dec; lra.
Qed.

Lemma clamp_mono (lo hi x y : R) :
  lo <= hi -> x <= y -> clamp lo hi x <= clamp lo hi y.
Proof.
  intros Hb H. unfold clamp, Rmax, Rmin. repeat destruct Rle_dec; lra.
Qed.

(** X4.  The first cursor event of the program does not turn the camera,
    wherever the cursor is reported: yaw and position are kept, and so is a
    pitch within [-89, 89]; the event only records the cursor position and
    clears [firstMouse]. *)
Theorem first_mouse_event_keeps_view (st : App) (xpos ypos : R) :
  firstMouse st = true ->
  -89 <= Pitch (cam st) <= 89 ->
  let st' := mouse_callback st xpos ypos in
  Yaw (cam st') = Yaw (cam st) /\
  Pitch (cam st') = Pitch (cam st) /\
  Position (cam st') = Position (cam st) /\
  lastX st' = xpos /\ lastY st' = ypos /\ firstMouse st' = false.
Proof.
  intros Hf Hp. cbv zeta.
  destruct (mouse_callback_last st xpos ypos) as (Hx & Hy & Hfm).
  rewrite mouse_callback_cam, Hf.
  rewrite ProcessMouseMovement_Yaw, ProcessMouseMovement_Pitch.
  destruct (ProcessMouseMovement_fixed (cam st) (xpos - xpos) (ypos - ypos)
              true) as (HP & _).
  repeat split; auto.
  - ring.
  - rewrite clamp_id; [ring | lra].
Qed.

Lemma first_mouse_event_keeps_view_witness :
  firstMouse app0 = true /\
  -89 <= Pitch (cam app0) <= 89 /\
  Yaw (cam (mouse_callback app0 10 790)) = Yaw (cam app0).
Proof.
  assert (Hp : -89 <= Pitch (cam app0) <= 89)
    by (simpl; unfold PITCH; lra).
  split; [reflexivity|]. split; [exact Hp|].
  exact (proj1 (first_mouse_event_keeps_view app0 10 790 eq_refl Hp)).
Defined.

(** X5.  The vertical axis is reversed: once the first event has passed, with
    a sensitivity that is not negative and a pitch within [-89, 89], a cursor
    reported lower on the screen (a larger [ypos]) never raises the pitch and
    a cursor reported higher never lowers it; as long as the sum stays within
    [-89, 89] the pitch changes by exactly the sensitivity times the
    distance. *)
Theorem mouse_vertical_reversed (st : App) (xpos ypos : R) :
  firstMouse st = false ->
  0 <= MouseSensitivity (cam st) ->
  -89 <= Pitch (cam st) <= 89 ->
  let st' := mouse_callback st xpos ypos in
  (lastY st <= ypos -> Pitch (cam st') <= Pitch (cam st)) /\
  (ypos <= lastY st -> Pitch (cam st) <= Pitch (cam st')) /\
  (-89 <= Pitch (cam st) + (lastY st - ypos) * MouseSensitivity (cam st)
     <= 89 ->
   Pitch (cam st') =
   Pitch (cam st) + (lastY st - ypos) * MouseSensitivity (cam st)).
Proof.
  intros Hf Hs Hp. cbv zeta.
  rewrite mouse_callback_cam, Hf, ProcessMouseMovement_Pitch.
  split; [|split].
  - intros Hy. rewrite <- (clamp_id (-89) 89 (Pitch (cam st)) Hp) at 2.
    apply clamp_mono; [lra | nra].
  - intros Hy. rewrite <- (clamp_id (-89) 89 (Pitch (cam st)) Hp) at 1.
    apply clamp_mono; [lra | nra].
  - intros Hin. apply clamp_id. exact Hin.
Qed.

Lemma mouse_vertical_reversed_witness :
  firstMouse (set_firstMouse app0 false) = false /\
  0 <= MouseSensitivity (cam (set_firstMouse app0 false)) /\
  -89 <= Pitch (cam (set_firstMouse app0 false)) <= 89 /\
  (lastY (set_firstMouse app0 false) <= 500 ->
   Pitch (cam (mouse_callback (set_firstMouse app0 false) 400 500)) <=
   Pitch (cam (set_firstMouse app0 false))).
Proof.
  assert (Hs : 0 <= MouseSensitivity (cam (set_firstMouse app0 false)))
    by (simpl; unfold SENSITIVITY; lra).
  assert (Hp : -89 <= Pitch (cam (set_firstMouse app0 false)) <= 89)
    by (simpl; unfold PITCH; lra).
  split; [reflexivity|]. split; [exact Hs|]. split; [exact Hp|].
  exact (proj1 (mouse_vertical_reversed (set_firstMouse app0 false)
                  400 500 eq_refl Hs Hp)).
Defined.

(** * Keys and frames *)

Lemma Camera_eta (c : Camera) : set_Position c (Position c) = c.
Proof. destruct c; reflexivity. Qed.

(** The camera through [processInput]: the four movement keys in program
    order, then P. *)
Lemma processInput_cam_steps (st : App) (pressed : Key -> bool) :
  cam (processInput st pressed) =
  let dt := deltaTime st in
  let c := cam st in
  let c := if pressed KEY_W then ProcessKeyboard c FORWARD dt else c in
  let c := if pressed KEY_S then ProcessKeyboard c BACKWARD dt else c in
  let c := if pressed KEY_A then ProcessKeyboard c LEFT dt else c in
  let c := if pressed KEY_D then ProcessKeyboard c RIGHT dt else c in
  if pressed KEY_P then Set_ c (mkvec3 0 0 5) else c.
Proof.
  unfold processInput.
  destruct (pressed KEY_ESCAPE), (pressed KEY_W), (pressed KEY_S),
    (pressed KEY_A), (pressed KEY_D), (pressed KEY_K), (pressed KEY_L),
    (pressed KEY_P); reflexivity.
Qed.

Ltac camera_cbv :=
  cbv [ProcessKeyboard Camera_Movement_eqb b2r set_Position vadd vsub vscale
       Position Front Right Up WorldUp Yaw Pitch MovementSpeed
       MouseSensitivity Zoom vx vy vz].

(** A movement key, held or not, as one assignment to the position. *)
Lemma key_step (c : Camera) (d : Camera_Movement) (dt : R) (b : bool) :
  (if b then ProcessKeyboard c d dt else c) =
  set_Position c
    (Position c
     +v (match d with FORWARD | BACKWARD => Front c | _ => Right c end)
        *s (MovementSpeed c * dt *
            (match d with FORWARD | RIGHT => b2r b | _ => - b2r b end)))%vec.
Proof.
  destruct c as [P F U Rt W y p ms s z]. destruct P, F, Rt.
  destruct b, d; camera_cbv; f_equal; f_equal; ring.
Qed.

(** The camera after [processInput] when P is not held: only the position
    has changed, by the net of the four movement keys. *)
Lemma processInput_cam (st : App) (pressed : Key -> bool) :
  pressed KEY_P = false ->
  cam (processInput st pressed) =
  set_Position (cam st)
    (Position (cam st)
     +v Front (cam st) *s (MovementSpeed (cam st) * deltaTime st *
                           (b2r (pressed KEY_W) - b2r (pressed KEY_S)))
     +v Right (cam st) *s (MovementSpeed (cam st) * deltaTime st *
                           (b2r (pressed KEY_D) - b2r (pressed KEY_A))))%vec.
Proof.
  intros HP. rewrite processInput_cam_steps, HP. cbv zeta.
  rewrite (key_step (cam st) FORWARD).
  rewrite (key_step _ BACKWARD), (key_step _ LEFT), (key_step _ RIGHT).
  generalize (b2r (pressed KEY_W)), (b2r (pressed KEY_S)),
    (b2r (pressed KEY_A)), (b2r (pressed KEY_D)), (deltaTime st).
  intros w s a d dt.
  destruct (cam st) as [P F U Rt W y p ms sn z]. destruct P, F, Rt.
  camera_cbv. f_equal; f_equal; ring.
Qed.

Lemma processInput_globals (st : App) (pressed : Key -> bool) :
  lastX (processInput st pressed) = lastX st /\
  lastY (processInput st pressed) = lastY st /\
  firstMouse (processInput st pressed) = firstMouse st /\
  deltaTime (processInput st pressed) = deltaTime st /\
  lastFrame (processInput st pressed) = lastFrame st /\
  light (processInput st pressed) = light st.
Proof.
  unfold processInput.
  destruct (pressed KEY_ESCAPE), (pressed KEY_W), (pressed KEY_S),
    (pressed KEY_A), (pressed KEY_D), (pressed KEY_K), (pressed KEY_L),
    (pressed KEY_P); repeat split; reflexivity.
Qed.

(** X6.  With P not held, one [processInput] moves the camera by the net of
    the movement keys: speed times frame time along Front for W less S, and
    along Right for D less A, and changes nothing else of the camera.  W
    held together with S, and A together with D, cancel: the camera stays
    where it is. *)
Theorem processInput_net_move (st : App) (pressed : Key -> bool) :
  pressed KEY_P = false ->
  let st' := processInput st pressed in
  let v := MovementSpeed (cam st) * deltaTime st in
  Position (cam st') =
    (Position (cam st)
     +v Front (cam st) *s (v * (b2r (pressed KEY_W) - b2r (pressed KEY_S)))
     +v Right (cam st) *s (v * (b2r (pressed KEY_D) - b2r (pressed KEY_A))))%vec
  /\
  cam st' = set_Position (cam st) (Position (cam st')) /\
  (pressed KEY_W = pressed KEY_S -> pressed KEY_A = pressed KEY_D ->
   cam st' = cam st).
Proof.
  intros HP. cbv zeta.
  rewrite (processInput_cam st pressed HP).
  split; [reflexivity|]. split; [reflexivity|].
  intros Hws Had. rewrite Hws, Had.
  rewrite <- (Camera_eta (cam st)) at 7.
  unfold set_Position, vadd, vscale; simpl. f_equal.
  destruct (Position (cam st)); simpl. f_equal; ring.
Qed.

Lemma processInput_net_move_witness :
  only KEY_W KEY_P = false /\
  Position (cam (processInput (set_timing app0 0.5 0.5) (only KEY_W))) =
    (Position (cam (set_timing app0 0.5 0.5))
     +v Front (cam (set_timing app0 0.5 0.5)) *s
        (MovementSpeed (cam (set_timing app0 0.5 0.5)) *
         deltaTime (set_timing app0 0.5 0.5) *
         (b2r (only KEY_W KEY_W) - b2r (only KEY_W KEY_S)))
     +v Right (cam (set_timing app0 0.5 0.5)) *s
        (MovementSpeed (cam (set_timing app0 0.5 0.5)) *
         deltaTime (set_timing app0 0.5 0.5) *
         (b2r (only KEY_W KEY_D) - b2r (only KEY_W KEY_A))))%vec.
Proof.
  split; [reflexivity|].
  exact (proj1 (processInput_net_move (set_timing app0 0.5 0.5)
                  (only KEY_W) eq_refl)).
Defined.

(** The camera that [Set] is applied to when P is held. *)
Lemma processInput_reset (st : App) (pressed : Key -> bool) :
  pressed KEY_P = true ->
  exists c, cam (processInput st pressed) = Set_ c (mkvec3 0 0 5) /\
            WorldUp c = WorldUp (cam st) /\ Zoom c = Zoom (cam st).
Proof.
  intros HP. rewrite processInput_cam_steps, HP. cbv zeta.
  eexists. split; [reflexivity|].
  rewrite (key_step (cam st) FORWARD).
  rewrite (key_step _ BACKWARD), (key_step _ LEFT), (key_step _ RIGHT).
  split; reflexivity.
Qed.

(** X7.  With P held, whatever other keys are held and wherever the camera
    was, [processInput] leaves the camera at (0, 0, 5) with yaw -90 and pitch
    0, looking down the negative z axis with the world axes as its own; the
    zoom is not part of the reset and keeps its value. *)
Theorem processInput_P_resets (st : App) (pressed : Key -> bool) :
  pressed KEY_P = true ->
  WorldUp (cam st) = world_up ->
  let c' := cam (processInput st pressed) in
  Position c' = mkvec3 0 0 5 /\ Yaw c' = -90 /\ Pitch c' = 0 /\
  Front c' = mkvec3 0 0 (-1) /\ Right c' = mkvec3 1 0 0 /\
  Up c' = mkvec3 0 1 0 /\
  Zoom c' = Zoom (cam st).
Proof.
  intros HP Hw. cbv zeta.
  destruct (processInput_reset st pressed HP) as (c & Hc & Hwc & Hz).
  rewrite Hc.
  destruct (default_basis
              (set_Pitch (set_Yaw (set_Position c (mkvec3 0 0 5)) (-90)) 0))
    as (HF & HR & HU); try reflexivity.
  { change (WorldUp c = world_up). rewrite Hwc. exact Hw. }
  change (updateCameraVectors _) with (Set_ c (mkvec3 0 0 5)) in HF, HR, HU.
  split; [reflexivity|]. split; [reflexivity|]. split; [reflexivity|].
  split; [exact HF|]. split; [exact HR|]. split; [exact HU|].
  change (Zoom c = Zoom (cam st)). exact Hz.
Qed.

Lemma processInput_P_resets_witness :
  (fun _ : Key => true) KEY_P = true /\
  WorldUp (cam app0) = world_up /\
  Position (cam (processInput app0 (fun _ => true))) = mkvec3 0 0 5.
Proof.
  split; [reflexivity|]. split; [reflexivity|].
  exact (proj1 (processInput_P_resets app0 (fun _ => true)
                  (eq_refl true) (eq_refl world_up))).
Defined.

Lemma processInput_window (st : App) (pressed : Key -> bool) :
  windowShouldClose (processInput st pressed) =
    (windowShouldClose st || pressed KEY_ESCAPE)%bool /\
  polygonMode (processInput st pressed) =
    (if pressed KEY_L then GL_FILL
     else if pressed KEY_K then GL_LINE else polygonMode st).
Proof.
  unfold processInput. destruct st as [c lx ly fm dt lf l wc pm].
  destruct (pressed KEY_ESCAPE), (pressed KEY_W), (pressed KEY_S),
    (pressed KEY_A), (pressed KEY_D), (pressed KEY_K), (pressed KEY_L),
    (pressed KEY_P), wc; split; reflexivity.
Qed.

Lemma handle_window (st : App) (e : Event) :
  windowShouldClose (handle st e) =
  (windowShouldClose st ||
   match e with EvFrame _ pressed => pressed KEY_ESCAPE | _ => false end)%bool.
Proof.
  destruct e as [x y|x y|t pressed].
  - unfold handle, mouse_callback. destruct (firstMouse st); simpl;
      rewrite orb_false_r; reflexivity.
  - simpl. rewrite orb_false_r. reflexivity.
  - unfold handle, frame. cbv zeta.
    change (windowShouldClose (set_light ?s ?l)) with (windowShouldClose s).
    rewrite (proj1 (processInput_window _ pressed)). reflexivity.
Qed.

(** X8.  The close flag of the window is raised and never lowered: after any
    run of cursor events, wheel events and rounds of the render loop it is
    set exactly when it was set before or Escape was held in one of the
    rounds.  Within one [processInput], L wins over K when both are held, and
    the polygon mode is kept when neither is. *)
Theorem close_flag_sticky (st : App) (events : list Event)
                          (pressed : Key -> bool) :
  windowShouldClose (run_events st events) =
    (windowShouldClose st ||
     existsb (fun e => match e with
                       | EvFrame _ pressed => pressed KEY_ESCAPE
                       | _ => false
                       end) events)%bool /\
  polygonMode (processInput st pressed) =
    (if pressed KEY_L then GL_FILL
     else if pressed KEY_K then GL_LINE else polygonMode st).
Proof.
  split; [|apply processInput_window].
  revert st. induction events as [|e events IH]; intros st.
  - simpl. rewrite orb_false_r. reflexivity.
  - unfold run_events in *. simpl. rewrite IH, handle_window.
    rewrite orb_assoc. reflexivity.
Qed.

(** One round of the loop with P not held. *)
Lemma frame_move (st : App) (t : R) (pressed : Key -> bool) :
  pressed KEY_P = false ->
  cam (frame st t pressed) =
  set_Position (cam st)
    (Position (cam st)
     +v Front (cam st) *s (MovementSpeed (cam st) * (t - lastFrame st) *
                           (b2r (pressed KEY_W) - b2r (pressed KEY_S)))
     +v Right (cam st) *s (MovementSpeed (cam st) * (t - lastFrame st) *
                           (b2r (pressed KEY_D) - b2r (pressed KEY_A))))%vec
  /\ lastFrame (frame st t pressed) = t.
Proof.
  intros HP. unfold frame. cbv zeta. split.
  - change (cam (set_light ?s ?l)) with (cam s).
    rewrite (processInput_cam _ pressed HP). reflexivity.
  - change (lastFrame (set_light ?s ?l)) with (lastFrame s).
    destruct (processInput_globals
                (set_timing st (t - lastFrame st) t) pressed)
      as (_ & _ & _ & _ & H & _).
    rewrite H. reflexivity.
Qed.

Lemma frames_move (pressed : Key -> bool) (times : list R) (st : App) :
  pressed KEY_P = false ->
  let st' := frames st (map (fun t => (t, pressed)) times) in
  let T := last times (lastFrame st) - lastFrame st in
  cam st' =
  set_Position (cam st)
    (Position (cam st)
     +v Front (cam st) *s (MovementSpeed (cam st) * T *
                           (b2r (pressed KEY_W) - b2r (pressed KEY_S)))
     +v Right (cam st) *s (MovementSpeed (cam st) * T *
                           (b2r (pressed KEY_D) - b2r (pressed KEY_A))))%vec
  /\ lastFrame st' = last times (lastFrame st).
Proof.
  intros HP. revert st. induction times as [|t times IH]; intros st; cbv zeta.
  - simpl. split; [|reflexivity].
    destruct (cam st) as [P F U Rt W y p ms sn z]. destruct P, F, Rt.
    camera_cbv. f_equal; f_equal; ring.
  - unfold frames in *. simpl map. simpl fold_left.
    change (fst (t, pressed)) with t. change (snd (t, pressed)) with pressed.
    destruct (frame_move st t pressed HP) as (Hc & Hl).
    specialize (IH (frame st t pressed)). cbv zeta in IH.
    destruct IH as (IC & IL).
    rewrite last_cons. rewrite Hl in IC, IL.
    split; [|exact IL].
    rewrite IC, Hc.
    generalize (b2r (pressed KEY_W)), (b2r (pressed KEY_S)),
      (b2r (pressed KEY_A)), (b2r (pressed KEY_D)), (last times t),
      (lastFrame st).
    intros w s a d tl t0.
    destruct (cam st) as [P F U Rt W y p ms sn z]. destruct P, F, Rt.
    camera_cbv. f_equal; f_equal; ring.
Qed.

(** X9.  Movement does not depend on the frame rate.  With the same keys
    held in every round (P not among them) and no other event in between,
    after rounds at any times the camera has moved by the net of the keys
    times the speed times the time from the frame before the first round to
    the last round, however that time was cut into frames; nothing else of
    the camera changes, and [lastFrame] is the time of the last round. *)
Theorem movement_frame_rate_independent (st : App) (pressed : Key -> bool)
                                        (times : list R) :
  pressed KEY_P = false ->
  let st' := frames st (map (fun t => (t, pressed)) times) in
  let T := last times (lastFrame st) - lastFrame st in
  Position (cam st') =
    (Position (cam st)
     +v Front (cam st) *s (MovementSpeed (cam st) * T *
                           (b2r (pressed KEY_W) - b2r (pressed KEY_S)))
     +v Right (cam st) *s (MovementSpeed (cam st) * T *
                           (b2r (pressed KEY_D) - b2r (pressed KEY_A))))%vec /\
  cam st' = set_Position (cam st) (Position (cam st')) /\
  lastFrame st' = last times (lastFrame st).
Proof.
  intros HP. cbv zeta.
  destruct (frames_move pressed times st HP) as (Hc & Hl).
  cbv zeta in Hc. rewrite Hc.
  split; [reflexivity|]. split; [reflexivity | exact Hl].
Qed.

Lemma movement_frame_rate_independent_witness :
  only KEY_W KEY_P = false /\
  lastFrame (frames app0 (map (fun t => (t, only KEY_W)) [0.1; 0.25; 1])) =
  last [0.1; 0.25; 1] (lastFrame app0).
Proof.
  split; [reflexivity|].
  exact (proj2 (proj2 (movement_frame_rate_independent app0 (only KEY_W)
                         [0.1; 0.25; 1] eq_refl))).
Defined.

(** * Colour, light and lamp *)

Lemma half_sine_range (x : R) : 0 <= sin x / 2 + 0.5 <= 1.
Proof. pose proof (SIN_bound x). lra. Qed.

(** X10.  At every time the three components of the animated object colour
    are within [0, 1], so the colour handed to the shader is a valid one. *)
Theorem object_colour_in_range (timeValue : R) :
  0 <= redValue timeValue <= 1 /\
  0 <= greenValue timeValue <= 1 /\
  0 <= blueValue timeValue <= 1.
Proof.
  unfold redValue, greenValue, blueValue.
  repeat split; apply half_sine_range.
Qed.

Lemma animate_lightPos_value (l : vec3) (t : R) :
  animate_lightPos l t = mkvec3 (5 * cos t) (cos t * 2) (5 * sin t).
Proof. reflexivity. Qed.

(** X11.  After every round of the render loop, whatever the keys, the light
    is on the cylinder x² + z² = 25 and in the plane 5y = 2x; its distance
    from the origin is at least 5, so it is never inside the unit sphere that
    it lights, and its height never exceeds 2 either way. *)
Theorem light_orbit_shape (st : App) (currentFrame : R)
                          (pressed : Key -> bool) :
  let l := light (frame st currentFrame pressed) in
  vx l * vx l + vz l * vz l = 25 /\
  5 * vy l = 2 * vx l /\
  5 <= length3 l /\
  -2 <= vy l <= 2.
Proof.
  cbv zeta. unfold frame. cbv zeta.
  change (light (set_light ?s ?l)) with l.
  rewrite animate_lightPos_value.
  generalize (cos currentFrame) (sin currentFrame) (sin2_cos2 currentFrame)
    (COS_bound currentFrame).
  intros co si H Hc. unfold Rsqr in H. cbv [vx vy vz length3 dot].
  assert (Hxz : 5 * co * (5 * co) + 5 * si * (5 * si) = 25) by nra.
  split; [exact Hxz|]. split; [ring|]. split; [|lra].
  apply Rle_trans with (sqrt (5 * 5)).
  - rewrite sqrt_square by lra. lra.
  - apply sqrt_le_1_alt. nra.
Qed.

(** X12.  The lamp's model matrix, the identity translated by the light
    position and then scaled by 0.2, takes a point [p] of the cube to the
    light position plus a fifth of [p]: the lamp is centred on the light,
    and the scaling does not move that centre. *)
Theorem lamp_model_places (lightPos p : vec3) :
  transform_point (lamp_model lightPos) p =
    vec4_of (lightPos +v p *s 0.2)%vec 1 /\
  transform_point (lamp_model lightPos) vec3_zero = vec4_of lightPos 1.
Proof.
  destruct lightPos as [lx ly lz], p as [px py pz].
  cbv [transform_point lamp_model scale translate mat4_identity
       mat4_mul_vec4 v4add v4scale vec4_of vec3_zero vadd vscale
       col0 col1 col2 col3 wx wy wz ww vx vy vz].
  split; f_equal; ring.
Qed.

(** * More on the sphere mesh *)

Lemma IZR_div_self (X : Z) : (0 < X)%Z -> IZR X / IZR X = 1.
Proof.
  intros H. apply Rinv_r. apply not_0_IZR. lia.
Qed.

Lemma IZR_0_div (X : Z) : IZR 0 / IZR X = 0.
Proof. unfold Rdiv. apply Rmult_0_l. Qed.

Lemma grid_vertex_seam (X Y y : Z) :
  (0 < X)%Z -> grid_vertex X Y X y = grid_vertex X Y 0 y.
Proof.
  intros HX. unfold grid_vertex, xPos, yPos, zPos.
  rewrite (IZR_div_self X HX), IZR_0_div.
  replace (1 * 2 * PI) with (2 * PI) by ring.
  replace (0 * 2 * PI) with 0 by ring.
  rewrite cos_2PI, sin_2PI, cos_0, sin_0. reflexivity.
Qed.

Lemma grid_vertex_north (X Y x : Z) :
  grid_vertex X Y x 0 = mkvec3 0 1 0.
Proof.
  unfold grid_vertex, xPos, yPos, zPos. rewrite IZR_0_div.
  replace (0 * PI) with 0 by ring. rewrite cos_0, sin_0.
  f_equal; ring.
Qed.

Lemma grid_vertex_south (X Y x : Z) :
  (0 < Y)%Z -> grid_vertex X Y x Y = mkvec3 0 (-1) 0.
Proof.
  intros HY. unfold grid_vertex, xPos, yPos, zPos.
  rewrite (IZR_div_self Y HY).
  replace (1 * PI) with PI by ring. rewrite cos_PI, sin_PI.
  f_equal; ring.
Qed.

Section MeshExtras.
Local Open Scope Z_scope.

(** X13.  The grid closes on itself with repeated vertices: in every row the
    last vertex is at the same point as the first (the seam), every vertex of
    the first row is the north pole (0, 1, 0) and every vertex of the last
    row the south pole (0, -1, 0). *)
Theorem sphere_seam_and_poles (X Y x y : Z) :
  0 < X -> 0 < Y -> 0 <= x <= X -> 0 <= y <= Y ->
  let vs := gen_sphereVertices X Y in
  vertex_at vs (Z.to_nat (y * (X + 1) + X)) =
    vertex_at vs (Z.to_nat (y * (X + 1) + 0)) /\
  vertex_at vs (Z.to_nat (0 * (X + 1) + x)) = Some (mkvec3 0 1 0) /\
  vertex_at vs (Z.to_nat (Y * (X + 1) + x)) = Some (mkvec3 0 (-1) 0).
Proof.
  intros HX HY Hx Hy vs. unfold vs.
  rewrite !vertex_at_grid by lia.
  rewrite (grid_vertex_seam X Y y HX), grid_vertex_north,
    (grid_vertex_south X Y x HY).
  repeat split.
Qed.

Lemma sphere_seam_and_poles_witness :
  0 < X_SEGMENTS /\ 0 < Y_SEGMENTS /\ 0 <= 7 <= X_SEGMENTS /\
  0 <= 30 <= Y_SEGMENTS /\
  vertex_at (gen_sphereVertices X_SEGMENTS Y_SEGMENTS)
            (Z.to_nat (30 * (X_SEGMENTS + 1) + X_SEGMENTS)) =
  vertex_at (gen_sphereVertices X_SEGMENTS Y_SEGMENTS)
            (Z.to_nat (30 * (X_SEGMENTS + 1) + 0)).
Proof.
  assert (HX : 0 < X_SEGMENTS) by reflexivity.
  assert (HY : 0 < Y_SEGMENTS) by reflexivity.
  assert (Hx : 0 <= 7 <= X_SEGMENTS) by (split; discriminate).
  assert (Hy : 0 <= 30 <= Y_SEGMENTS) by (split; discriminate).
  exact (conj HX (conj HY (conj Hx (conj Hy
           (proj1 (sphere_seam_and_poles X_SEGMENTS Y_SEGMENTS 7 30
                     HX HY Hx Hy)))))).
Defined.

(** The entries of a quad of the grid are entries of the index vector. *)
Lemma In_quad (X Y i j e : Z) :
  0 <= i < Y -> 0 <= j < X -> (X + 1) * (Y + 1) <= INT_MAX ->
  In e [i * (X + 1) + j; (i + 1) * (X + 1) + j; (i + 1) * (X + 1) + j + 1;
        i * (X + 1) + j; (i + 1) * (X + 1) + j + 1; i * (X + 1) + j + 1] ->
  In e (gen_sphereIndices X Y).
Proof.
  intros Hi Hj Hmax He. rewrite gen_sphereIndices_rows.
  apply in_flat_map. exists i. split; [apply In_Zseq; lia|].
  apply in_flat_map. exists j. split; [apply In_Zseq; lia|].
  rewrite (quad_entries_exact X Y i j) by assumption. exact He.
Qed.

(** X14.  No vertex is left out of the mesh: for positive segment counts
    whose vertex count fits an [int], every vertex number below the vertex
    count is an entry of the index vector. *)
Theorem every_vertex_indexed (X Y : Z) (k : nat) :
  0 < X -> 0 < Y -> (X + 1) * (Y + 1) <= INT_MAX ->
  (k < vertex_count (gen_sphereVertices X Y))%nat ->
  In (Z.of_nat k) (gen_sphereIndices X Y).
Proof.
  intros HX HY Hmax Hk.
  destruct (vertex_number_grid X Y k) as (x & y & Hx & Hy & Hkxy);
    [lia | lia | exact Hk |].
  assert (Hz : Z.of_nat k = y * (X + 1) + x) by nia.
  rewrite Hz.
  destruct (Z_lt_dec y Y) as [Hyl|Hyl], (Z_lt_dec x X) as [Hxl|Hxl].
  - apply (In_quad X Y y x); [lia | lia | assumption |]. left. reflexivity.
  - apply (In_quad X Y y (x - 1)); [lia | lia | assumption |].
    do 5 right. left. lia.
  - apply (In_quad X Y (y - 1) x); [lia | lia | assumption |].
    right. left. lia.
  - apply (In_quad X Y (y - 1) (x - 1)); [lia | lia | assumption |].
    do 2 right. left. lia.
Qed.

Lemma every_vertex_indexed_witness :
  0 < 2 /\ 0 < 2 /\ (2 + 1) * (2 + 1) <= INT_MAX /\
  (8 < vertex_count (gen_sphereVertices 2 2))%nat /\
  In (Z.of_nat 8) (gen_sphereIndices 2 2).
Proof.
  assert (H1 : 0 < 2) by reflexivity.
  assert (H3 : (2 + 1) * (2 + 1) <= INT_MAX) by discriminate.
  assert (Hk : (8 < vertex_count (gen_sphereVertices 2 2))%nat).
  { unfold vertex_count. rewrite length_gen_sphereVertices.
    apply Nat.ltb_lt. reflexivity. }
  exact (conj H1 (conj H1 (conj H3 (conj Hk
           (every_vertex_indexed 2 2 8 H1 H1 H3 Hk))))).
Defined.

End MeshExtras.

Section Triangles.
Local Open Scope Z_scope.

Lemma length_index_row (X i : Z) :
  length (flat_map (quad_entries X i) (Zseq 0 (Z.to_nat X))) =
  (6 * Z.to_nat X)%nat.
Proof.
  rewrite (length_flat_map_chunk _ 6) by reflexivity.
  rewrite Zseq_length. reflexivity.
Qed.

(** The entry number [6 q + r] of the index vector, for [q] the row-major
    number of quad [(i, j)]. *)
Lemma nth_error_gen_sphereIndices (X Y i j : Z) (r : nat) :
  0 <= i < Y -> 0 <= j < X -> (r < 6)%nat ->
  nth_error (gen_sphereIndices X Y) (6 * Z.to_nat (i * X + j) + r) =
  nth_error (quad_entries X i j) r.
Proof.
  intros Hi Hj Hr. rewrite gen_sphereIndices_rows.
  replace (6 * Z.to_nat (i * X + j) + r)%nat
    with (6 * Z.to_nat X * Z.to_nat i + (6 * Z.to_nat j + r))%nat by nia.
  rewrite (nth_error_flat_map_chunk _ (6 * Z.to_nat X)
             (fun i => length_index_row X i) _ _ _ i).
  - rewrite (nth_error_flat_map_chunk (quad_entries X i) 6
               (fun _ => eq_refl) _ _ _ j).
    + reflexivity.
    + rewrite nth_error_Zseq by lia. f_equal. lia.
    + exact Hr.
  - rewrite nth_error_Zseq by lia. f_equal. lia.
  - lia.
Qed.

(** X15.  Every triangle of the mesh names three different vertices: for
    positive segment counts whose vertex count fits an [int], the entries
    [3t], [3t+1] and [3t+2] of the index vector exist for every triangle
    number [t] below 2·X·Y and are pairwise different. *)
Theorem triangles_name_distinct_vertices (X Y : Z) (t : nat) :
  0 < X -> 0 < Y -> (X + 1) * (Y + 1) <= INT_MAX ->
  (t < 2 * Z.to_nat (X * Y))%nat ->
  exists a b c,
    nth_error (gen_sphereIndices X Y) (3 * t) = Some a /\
    nth_error (gen_sphereIndices X Y) (3 * t + 1) = Some b /\
    nth_error (gen_sphereIndices X Y) (3 * t + 2) = Some c /\
    a <> b /\ b <> c /\ a <> c.
Proof.
  intros HX HY Hmax Ht.
  pose proof (Nat.div_mod_eq t 2) as Hdm.
  pose proof (Nat.mod_upper_bound t 2 ltac:(lia)) as Hh.
  set (q := (t / 2)%nat) in *. set (h := (t mod 2)%nat) in *.
  assert (Hq : Z.of_nat q < X * Y) by lia.
  set (i := Z.of_nat q / X). set (j := Z.of_nat q mod X).
  pose proof (Z.mod_pos_bound (Z.of_nat q) X HX) as Hj. fold j in Hj.
  pose proof (Z.div_mod (Z.of_nat q) X ltac:(lia)) as Hd.
  fold i in Hd. fold j in Hd.
  assert (Hi : 0 <= i < Y).
  { split; [apply Z.div_pos; lia | apply Z.div_lt_upper_bound; lia]. }
  assert (Hqij : Z.to_nat (i * X + j) = q) by lia.
  assert (Hn : forall r, (r < 3)%nat ->
            nth_error (gen_sphereIndices X Y) (3 * t + r) =
            nth_error
              [i * (X + 1) + j; (i + 1) * (X + 1) + j;
               (i + 1) * (X + 1) + j + 1; i * (X + 1) + j;
               (i + 1) * (X + 1) + j + 1; i * (X + 1) + j + 1]
              (3 * h + r)).
  { intros r Hr.
    replace (3 * t + r)%nat
      with (6 * Z.to_nat (i * X + j) + (3 * h + r))%nat by lia.
    rewrite nth_error_gen_sphereIndices by lia.
    rewrite (quad_entries_exact X Y i j) by lia. reflexivity. }
  pose proof (Hn 0%nat ltac:(lia)) as H0.
  pose proof (Hn 1%nat ltac:(lia)) as H1.
  pose proof (Hn 2%nat ltac:(lia)) as H2.
  rewrite Nat.add_0_r in H0.
  destruct h as [|[|h]]; [| |lia]; simpl in H0, H1, H2;
    eexists; eexists; eexists;
    (split; [exact H0|]); (split; [exact H1|]); (split; [exact H2|]);
    repeat split; lia.
Qed.

Lemma triangles_name_distinct_vertices_witness :
  0 < 2 /\ 0 < 2 /\ (2 + 1) * (2 + 1) <= INT_MAX /\
  (7 < 2 * Z.to_nat (2 * 2))%nat /\
  exists a b c,
    nth_error (gen_sphereIndices 2 2) (3 * 7) = Some a /\
    nth_error (gen_sphereIndices 2 2) (3 * 7 + 1) = Some b /\
    nth_error (gen_sphereIndices 2 2) (3 * 7 + 2) = Some c /\
    a <> b /\ b <> c /\ a <> c.
Proof.
  assert (H1 : 0 < 2) by reflexivity.
  assert (H3 : (2 + 1) * (2 + 1) <= INT_MAX) by discriminate.
  assert (Ht : (7 < 2 * Z.to_nat (2 * 2))%nat)
    by (apply Nat.ltb_lt; reflexivity).
  exact (conj H1 (conj H1 (conj H3 (conj Ht
           (triangles_name_distinct_vertices 2 2 7 H1 H1 H3 Ht))))).
Defined.

End Triangles.

(** * More on the camera *)







(** X18.  Keyboard moves compose as translations: two moves give the same
    camera in either order, and a move followed by the opposite move for the
    same time brings the camera back. *)
Theorem keyboard_moves_commute (c : Camera) (d1 d2 : Camera_Movement)
                               (t1 t2 : R) :
  ProcessKeyboard (ProcessKeyboard c d1 t1) d2 t2 =
    ProcessKeyboard (ProcessKeyboard c d2 t2) d1 t1 /\
  ProcessKeyboard (ProcessKeyboard c FORWARD t1) BACKWARD t1 = c /\
  ProcessKeyboard (ProcessKeyboard c BACKWARD t1) FORWARD t1 = c /\
  ProcessKeyboard (ProcessKeyboard c LEFT t1) RIGHT t1 = c /\
  ProcessKeyboard (ProcessKeyboard c RIGHT t1) LEFT t1 = c.
Proof.
  destruct c as [P F U Rt W y p ms s z]. destruct P, F, Rt.
  split; [destruct d1, d2; camera_cbv; f_equal; f_equal; ring|].
  repeat split; camera_cbv; f_equal; f_equal; ring.
Qed.

Lemma ProcessMouseScroll_set (c : Camera) (yoffset : R) :
  ProcessMouseScroll c yoffset = set_Zoom c (clamp 1 45 (Zoom c - yoffset)).
Proof.
  rewrite <- (ProcessMouseScroll_Zoom c yoffset).
  unfold ProcessMouseScroll. cbv zeta.
  repeat destruct Rlt_dec; reflexivity.
Qed.

(** X19.  From a zoom within [1, 45], scrolling the wheel up (a positive
    offset) never widens the field of view and scrolling down never narrows
    it; scrolling by an offset and then back by the same offset restores the
    zoom whenever the first scroll did not hit a bound, and at the default 45
    scrolling down changes nothing. *)
Theorem scroll_monotone (c : Camera) (yoffset : R) :
  1 <= Zoom c <= 45 ->
  (0 <= yoffset -> Zoom (ProcessMouseScroll c yoffset) <= Zoom c) /\
  (yoffset <= 0 -> Zoom c <= Zoom (ProcessMouseScroll c yoffset)) /\
  (1 <= Zoom c - yoffset <= 45 ->
   ProcessMouseScroll (ProcessMouseScroll c yoffset) (- yoffset) = c) /\
  (Zoom c = 45 -> yoffset <= 0 -> ProcessMouseScroll c yoffset = c).
Proof.
  intros Hz.
  assert (Hid : set_Zoom c (Zoom c) = c) by (destruct c; reflexivity).
  split; [|split; [|split]].
  - intros Hy. rewrite ProcessMouseScroll_Zoom.
    rewrite <- (clamp_id 1 45 (Zoom c) Hz) at 2.
    apply clamp_mono; lra.
  - intros Hy. rewrite ProcessMouseScroll_Zoom.
    rewrite <- (clamp_id 1 45 (Zoom c) Hz) at 1.
    apply clamp_mono; lra.
  - intros Hin. rewrite !ProcessMouseScroll_set.
    change (Zoom (set_Zoom c ?z)) with z.
    rewrite (clamp_id 1 45 (Zoom c - yoffset) Hin).
    replace (Zoom c - yoffset - - yoffset) with (Zoom c) by ring.
    rewrite (clamp_id 1 45 (Zoom c) Hz). exact Hid.
  - intros H45 Hy. rewrite ProcessMouseScroll_set.
    replace (clamp 1 45 (Zoom c - yoffset)) with (Zoom c); [exact Hid|].
    unfold clamp, Rmax, Rmin. repeat destruct Rle_dec; lra.
Qed.

Lemma scroll_monotone_witness :
  1 <= Zoom camera <= 45 /\
  (0 <= 3 -> Zoom (ProcessMouseScroll camera 3) <= Zoom camera).
Proof.
  assert (Hz : 1 <= Zoom camera <= 45) by (simpl; unfold ZOOM; lra).
  split; [exact Hz|].
  exact (proj1 (scroll_monotone camera 3 Hz)).
Defined.

(** * The invariant of the running program *)

Lemma camera_ok_set_Position (c : Camera) (p : vec3) :
  camera_ok c -> camera_ok (set_Position c p).
Proof. intros H. exact H. Qed.

Lemma camera_ok_look (c : Camera) (x y : R) :
  camera_ok c -> camera_ok (ProcessMouseMovement c x y true).
Proof.
  intros (Hvf & Hp & Hz & Hw & Hs & Hm).
  destruct (ProcessMouseMovement_fixed c x y true) as (_ & Hs' & Hm' & Hz').
  split; [apply ProcessMouseMovement_view_frame; exact Hw|].
  split; [rewrite ProcessMouseMovement_Pitch; apply clamp_range; lra|].
  split; [rewrite Hz'; exact Hz|].
  split; [rewrite ProcessMouseMovement_WorldUp; exact Hw|].
  split; [rewrite Hs'; exact Hs | rewrite Hm'; exact Hm].
Qed.

Lemma camera_ok_scroll (c : Camera) (y : R) :
  camera_ok c -> camera_ok (ProcessMouseScroll c y).
Proof.
  intros (Hvf & Hp & Hz & Hw & Hs & Hm).
  rewrite ProcessMouseScroll_set.
  split; [exact Hvf|]. split; [exact Hp|].
  split; [apply clamp_range; lra|].
  split; [exact Hw|]. split; [exact Hs | exact Hm].
Qed.

Lemma camera_ok_Set (c : Camera) (po : vec3) :
  camera_ok c -> camera_ok (Set_ c po).
Proof.
  intros (Hvf & Hp & Hz & Hw & Hs & Hm).
  split; [apply Set_view_frame; exact Hw|].
  split; [change (-89 <= 0 <= 89); lra|].
  split; [exact Hz|].
  split; [exact Hw|]. split; [exact Hs | exact Hm].
Qed.

Lemma camera_ok_processInput (st : App) (pressed : Key -> bool) :
  camera_ok (cam st) -> camera_ok (cam (processInput st pressed)).
Proof.
  intros H. destruct (pressed KEY_P) eqn:HP.
  - rewrite processInput_cam_steps, HP. cbv zeta.
    rewrite (key_step (cam st) FORWARD).
    rewrite (key_step _ BACKWARD), (key_step _ LEFT), (key_step _ RIGHT).
    apply camera_ok_Set.
    repeat apply camera_ok_set_Position. exact H.
  - rewrite (processInput_cam st pressed HP).
    apply camera_ok_set_Position. exact H.
Qed.

Lemma camera_ok_handle (st : App) (e : Event) :
  camera_ok (cam st) -> camera_ok (cam (handle st e)).
Proof.
  intros H. destruct e as [x y|x y|t pressed].
  - unfold handle. rewrite mouse_callback_cam. apply camera_ok_look. exact H.
  - apply camera_ok_scroll. exact H.
  - unfold handle, frame. cbv zeta.
    change (cam (set_light ?s ?l)) with (cam s).
    apply camera_ok_processInput. exact H.
Qed.

Lemma camera_ok_initial : camera_ok camera.
Proof.
  split; [exact camera_is_view_frame|].
  split; [change (-89 <= PITCH <= 89); unfold PITCH; lra|].
  split; [change (1 <= ZOOM <= 45); unfold ZOOM; lra|].
  repeat split.
Qed.

(** X20.  The invariant of the running program: from the globals as
    initialised, after any run of cursor events, wheel events and rounds of
    the render loop with any keys held, the camera is in a view frame
    (Front, Right, Up of unit length, pairwise orthogonal, Up = Right ×
    Front), its pitch is within [-89, 89] and its zoom within [1, 45], and
    its world-up vector, speed and sensitivity are the initial ones. *)
Theorem running_camera_invariant (events : list Event) :
  camera_ok (cam (run_events app0 events)).
Proof.
  assert (H : forall st, camera_ok (cam st) ->
                         camera_ok (cam (run_events st events))).
  { induction events as [|e events IH]; intros st Hst.
    - exact Hst.
    - unfold run_events in *. simpl. apply IH.
      apply camera_ok_handle. exact Hst. }
  apply H. exact camera_ok_initial.
Qed.

(** * More on the shaders *)

Lemma inversesqrt_pos (d : R) : 0 < d -> 0 < inversesqrt d.
Proof.
  intros H. unfold inversesqrt.
  apply Rdiv_lt_0_compat; [lra | apply sqrt_lt_R0; exact H].
Qed.

Lemma dot_normalize_normalize (a b : vec3) :
  dot (normalize a) (normalize b) =
  inversesqrt (dot a a) * inversesqrt (dot b b) * dot a b.
Proof.
  unfold normalize. rewrite dot_vscale_l, dot_vscale_r. ring.
Qed.

(** Cauchy-Schwarz for unit vectors. *)
Lemma dot_unit_le_1 (u w : vec3) :
  dot u u = 1 -> dot w w = 1 -> dot u w <= 1.
Proof.
  destruct u as [a b c], w as [d e f]. unfold dot; simpl. intros Hu Hw.
  pose proof (Rle_0_sqr (a - d)). pose proof (Rle_0_sqr (b - e)).
  pose proof (Rle_0_sqr (c - f)). unfold Rsqr in *. nra.
Qed.

(** The diffuse factor, for a normal and a light direction that are not
    zero. *)
Lemma diff_range (n l : vec3) :
  0 < dot n n -> 0 < dot l l ->
  0 <= Rmax (dot (normalize n) (normalize l)) 0 <= 1.
Proof.
  intros Hn Hl. split; [apply Rmax_r|].
  apply Rmax_lub; [|lra].
  apply dot_unit_le_1; apply dot_normalize; assumption.
Qed.

Lemma diff_back (n l : vec3) :
  0 < dot n n -> 0 < dot l l -> dot n l <= 0 ->
  Rmax (dot (normalize n) (normalize l)) 0 = 0.
Proof.
  intros Hn Hl H. apply Rmax_right.
  rewrite dot_normalize_normalize.
  pose proof (inversesqrt_pos _ Hn). pose proof (inversesqrt_pos _ Hl).
  assert (0 < inversesqrt (dot n n) * inversesqrt (dot l l)) by nra.
  nra.
Qed.

(** X21.  A fragment that faces away from the light gets the ambient term
    only: when the normal and the direction to the light are not zero and
    their dot product is not positive, both shaders output
    ambientStrength × lightColor × objectColor, with alpha 1. *)
Theorem shading_back_face (i : FragmentInput) :
  0 < dot (Normal i) (Normal i) ->
  0 < dot (lightPos i -v FragPos i)%vec (lightPos i -v FragPos i)%vec ->
  dot (Normal i) (lightPos i -v FragPos i)%vec <= 0 ->
  f_basic_lighting i =
    vec4_of ((0.15 s* lightColor i) *v objectColor i)%vec 1 /\
  f_humor_drill i =
    vec4_of ((0.2 s* lightColor i) *v objectColor i)%vec 1.
Proof.
  intros Hn Hl Hd.
  pose proof (diff_back _ _ Hn Hl Hd) as H0.
  unfold f_basic_lighting, f_humor_drill. cbv zeta. rewrite H0.
  unfold vec4_of, vmul, vadd, scalev; simpl.
  split; f_equal; ring.
Qed.

Lemma shading_back_face_witness :
  0 < dot (Normal fragment_unlit) (Normal fragment_unlit) /\
  0 < dot (lightPos fragment_unlit -v FragPos fragment_unlit)%vec
          (lightPos fragment_unlit -v FragPos fragment_unlit)%vec /\
  dot (Normal fragment_unlit)
      (lightPos fragment_unlit -v FragPos fragment_unlit)%vec <= 0 /\
  f_basic_lighting fragment_unlit =
    vec4_of ((0.15 s* lightColor fragment_unlit)
             *v objectColor fragment_unlit)%vec 1.
Proof.
  assert (Hn : 0 < dot (Normal fragment_unlit) (Normal fragment_unlit))
    by (unfold dot; simpl; lra).
  assert (Hl : 0 < dot (lightPos fragment_unlit -v FragPos fragment_unlit)%vec
                       (lightPos fragment_unlit -v FragPos fragment_unlit)%vec)
    by (unfold dot; simpl; lra).
  assert (Hd : dot (Normal fragment_unlit)
                   (lightPos fragment_unlit -v FragPos fragment_unlit)%vec
               <= 0)
    by (unfold dot; simpl; lra).
  split; [exact Hn|]. split; [exact Hl|]. split; [exact Hd|].
  exact (proj1 (shading_back_face fragment_unlit Hn Hl Hd)).
Defined.

Lemma shade_component (s d lc oc : R) :
  0 <= s -> 0 <= d <= 1 -> 0 <= lc <= 1 -> 0 <= oc <= 1 ->
  0 <= (s * lc + d * lc) * oc <= s + 1.
Proof.
  intros Hs Hd Hlc Hoc.
  assert (H1 : 0 <= s * lc + d * lc <= s + 1) by nra.
  nra.
Qed.

(** X22.  The shaders do not clamp: for a light colour and an object colour
    with components within [0, 1], and a normal and a light direction that
    are not zero, every colour component of the output is at least 0 and at
    most 1 plus the ambient strength, 1.15 for [f_basic_lighting] and 1.2 for
    [f_humor_drill]. *)
Theorem shading_range (i : FragmentInput) :
  0 < dot (Normal i) (Normal i) ->
  0 < dot (lightPos i -v FragPos i)%vec (lightPos i -v FragPos i)%vec ->
  colour01 (lightColor i) -> colour01 (objectColor i) ->
  let b := f_basic_lighting i in
  let h := f_humor_drill i in
  0 <= wx b <= 1.15 /\ 0 <= wy b <= 1.15 /\ 0 <= wz b <= 1.15 /\
  0 <= wx h <= 1.2 /\ 0 <= wy h <= 1.2 /\ 0 <= wz h <= 1.2.
Proof.
  intros Hn Hl (Lx & Ly & Lz) (Ox & Oy & Oz). cbv zeta.
  pose proof (diff_range _ _ Hn Hl) as Hd.
  unfold f_basic_lighting, f_humor_drill. cbv zeta.
  set (d := Rmax _ 0) in *.
  unfold vec4_of, vmul, vadd, scalev; simpl.
  replace 1.15 with (0.15 + 1) by lra. replace 1.2 with (0.2 + 1) by lra.
  repeat split; apply shade_component; assumption || lra.
Qed.

Lemma shading_range_witness :
  0 < dot (Normal fragment_lit) (Normal fragment_lit) /\
  0 < dot (lightPos fragment_lit -v FragPos fragment_lit)%vec
          (lightPos fragment_lit -v FragPos fragment_lit)%vec /\
  colour01 (lightColor fragment_lit) /\
  colour01 (objectColor fragment_lit) /\
  0 <= wx (f_basic_lighting fragment_lit) <= 1.15.
Proof.
  assert (Hn : 0 < dot (Normal fragment_lit) (Normal fragment_lit))
    by (unfold dot; simpl; lra).
  assert (Hl : 0 < dot (lightPos fragment_lit -v FragPos fragment_lit)%vec
                       (lightPos fragment_lit -v FragPos fragment_lit)%vec)
    by (unfold dot; simpl; lra).
  assert (Hc : colour01 (lightColor fragment_lit))
    by (unfold colour01; simpl; lra).
  assert (Ho : colour01 (objectColor fragment_lit))
    by (unfold colour01; simpl; lra).
  split; [exact Hn|]. split; [exact Hl|]. split; [exact Hc|].
  split; [exact Ho|].
  exact (proj1 (shading_range fragment_lit Hn Hl Hc Ho)).
Defined.

Lemma normalize_vscale (v : vec3) (k : R) :
  0 < k -> 0 < dot v v -> normalize (v *s k)%vec = normalize v.
Proof.
  intros Hk Hv.
  assert (Hs : 0 < sqrt (dot v v)) by (apply sqrt_lt_R0; exact Hv).
  assert (Hd : dot (v *s k)%vec (v *s k)%vec = k * k * dot v v)
    by (rewrite dot_vscale_l, dot_vscale_r; ring).
  unfold normalize, inversesqrt. rewrite Hd.
  rewrite sqrt_mult by nra. rewrite sqrt_square by lra.
  destruct v as [a b c]. unfold vscale; simpl.
  f_equal; field; lra.
Qed.

(** X23.  The length of the normal does not matter to the shading: scaling
    a non-zero normal by any positive factor leaves the output of both
    shaders unchanged. *)
Theorem shading_ignores_normal_length (i : FragmentInput) (k : R) :
  0 < k -> 0 < dot (Normal i) (Normal i) ->
  let i' := mkFragmentInput (Normal i *s k)%vec (FragPos i) (lightPos i)
              (lightColor i) (objectColor i) in
  f_basic_lighting i' = f_basic_lighting i /\
  f_humor_drill i' = f_humor_drill i.
Proof.
  intros Hk Hn. cbv zeta.
  unfold f_basic_lighting, f_humor_drill. cbv zeta.
  change (Normal (mkFragmentInput ?n _ _ _ _)) with n.
  rewrite (normalize_vscale _ k Hk Hn). split; reflexivity.
Qed.

Lemma shading_ignores_normal_length_witness :
  0 < 3 /\ 0 < dot (Normal fragment_lit) (Normal fragment_lit) /\
  f_basic_lighting
    (mkFragmentInput (Normal fragment_lit *s 3)%vec (FragPos fragment_lit)
       (lightPos fragment_lit) (lightColor fragment_lit)
       (objectColor fragment_lit)) = f_basic_lighting fragment_lit.
Proof.
  assert (Hk : 0 < 3) by lra.
  assert (Hn : 0 < dot (Normal fragment_lit) (Normal fragment_lit))
    by (unfold dot; simpl; lra).
  split; [exact Hk|]. split; [exact Hn|].
  exact (proj1 (shading_ignores_normal_length fragment_lit 3 Hk Hn)).
Defined.

(** * The lamp's vertex data *)

(** X24.  The lamp is drawn from the buffer of the hand-written mesh, nine
    floats a vertex, through an attribute with a stride of six floats.  Each
    of its 36 vertices is read from inside the buffer, but only every third
    one starts at a vertex of the mesh: lamp vertex 3m reads the position of
    mesh vertex 2m, whatever the buffer holds, while lamp vertex 1 reads
    floats 6 to 8, the colour of mesh vertex 0, as its position. *)
Theorem lamp_fetch_misaligned (buffer : list R) (k m : nat) :
  (k < 36)%nat ->
  fetch_attrib vertices lamp_attrib_0 k <> None /\
  fetch_attrib buffer lamp_attrib_0 (3 * m) =
    fetch_attrib buffer cube_attrib_0 (2 * m) /\
  fetch_attrib vertices lamp_attrib_0 1 =
    Some [0.131538; 0.75865; 0.218959] /\
  fetch_attrib vertices cube_attrib_0 1 = Some [0.5; 0.5; -0.5].
Proof.
  intros Hk. split; [|split; [|split]].
  - apply fetch_attrib_inside.
    change (length vertices) with 324%nat.
    unfold lamp_attrib_0. simpl attrib_stride; simpl attrib_pointer;
      simpl attrib_size. lia.
  - unfold fetch_attrib, lamp_attrib_0, cube_attrib_0.
    simpl attrib_stride; simpl attrib_pointer; simpl attrib_size.
    replace (6 * (3 * m) + 0)%nat with (9 * (2 * m) + 0)%nat by lia.
    reflexivity.
  - reflexivity.
  - reflexivity.
Qed.

Lemma lamp_fetch_misaligned_witness :
  (35 < 36)%nat /\ fetch_attrib vertices lamp_attrib_0 35 <> None.
Proof.
  assert (Hk : (35 < 36)%nat) by (apply Nat.ltb_lt; reflexivity).
  split; [exact Hk|].
  exact (proj1 (lamp_fetch_misaligned vertices 35 0 Hk)).
Defined.
